(** * EpubReader: the reading core of [epubreader.py]

    A shallow embedding of the pagination, progress-store and navigation
    code of the [EpubReader] class, and the properties of its
    specification that were checked against it.

    Python values are modelled as follows: [int] as [Z], [str] as a list of
    characters, [bytes] as a list of bytes, [list] as [list], [None]-able
    attributes as [option].  Methods that mutate [self] or may raise are
    written in a small state-and-exception monad: an exception leaves the
    object as mutated up to the raising call, as in Python.

    The window layout is left out.  The font controls never read or write
    the navigation attributes and are modelled apart, on the font
    attributes alone; of the widgets, the chapter list and the text viewer
    are kept, the first because its signal calls [load_chapter], the
    second because it holds what is displayed. *)

From Stdlib Require Import ZArith Lia Ascii String DecimalString.
From Stdlib.Strings Require Import Byte.
From stdpp Require Import base tactics option list strings.

Local Open Scope Z_scope.

(** ** Python built-ins used by the code *)

Definition text := list ascii.
Definition bytes := list byte.

Definition len {A} (l : list A) : Z := Z.of_nat (length l).

(** [range(start, stop, step)] for a positive [step]: the loop that
    produces the next index while it is below [stop].  The fuel is the
    width of the interval, which a positive step cannot outlast. *)
Fixpoint range_from (fuel : nat) (i stop step : Z) : list Z :=
  match fuel with
  | O => []
  | S fuel' =>
      if i <? stop then i :: range_from fuel' (i + step) stop step else []
  end.

Definition range (start stop step : Z) : list Z :=
  range_from (Z.to_nat (stop - start)) start stop step.

(** A slice bound: negative bounds count from the end, and every bound is
    clamped into [0, len]. *)
Definition slice_bound (n i : Z) : Z :=
  if i <? 0 then Z.max (i + n) 0 else Z.min i n.

(** [l[i:j]] *)
Definition slice {A} (l : list A) (i j : Z) : list A :=
  let lo := slice_bound (len l) i in
  let hi := slice_bound (len l) j in
  take (Z.to_nat (hi - lo)) (drop (Z.to_nat lo) l).

(** [l[i]]: [None] stands for [IndexError]. *)
Definition index {A} (l : list A) (i : Z) : option A :=
  if (0 <=? i) && (i <? len l) then l !! Z.to_nat i
  else if (- len l <=? i) && (i <? 0) then l !! Z.to_nat (len l + i)
  else None.

(** ** Pagination *)

Definition page_size : Z := 2000.

(** [paginate_chapter]: [[text[i:i + page_size] for i in range(0, len(text), page_size)]] *)
Definition paginate_chapter (t : text) : list text :=
  map (fun i => slice t i (i + page_size)) (range 0 (len t) page_size).

(** ** The progress table of [reader.db] *)

(** One row of [progress (book_path TEXT PRIMARY KEY, chapter INTEGER,
    page INTEGER)].  The table is kept as the list of its rows, so that
    the uniqueness of [book_path] is a property to be proved rather than
    one built into the representation. *)
Record row := Row { book_path : string; chapter : Z; page : Z }.

Definition table := list row.

(** [INSERT INTO progress ... VALUES (?, ?, ?) ON CONFLICT(book_path) DO
    UPDATE SET chapter=excluded.chapter, page=excluded.page] *)
Fixpoint upsert (path : string) (c p : Z) (t : table) : table :=
  match t with
  | [] => [Row path c p]
  | r :: t' =>
      if String.eqb (book_path r) path then Row path c p :: t'
      else r :: upsert path c p t'
  end.

(** [SELECT chapter, page FROM progress WHERE book_path=?] followed by
    [fetchone()].  The bound parameter is [None] when [current_book] is
    still unset: [book_path = NULL] selects no row. *)
Definition select (path : option string) (t : table) : option (Z * Z) :=
  match path with
  | None => None
  | Some k =>
      (fun r => (chapter r, page r)) <$>
        List.find (fun r => String.eqb (book_path r) k) t
  end.

(** The PRIMARY KEY constraint. *)
Definition primary_key (t : table) : Prop := NoDup (book_path <$> t).


(** The database file: its table, and the outcomes decided by the
    environment for the coming storage calls ([true]: the call raises
    [sqlite3.OperationalError]; an exhausted list means no further
    outage). *)
Record database := Database { progress : table; outages : list bool }.

(** ** The reader object *)

(** The document shown by [text_view]: what [setHtml] was last given.
    The cover page embeds the base-64 encoding of the cover bytes, which
    determines and is determined by those bytes; a text page shows the
    page text with its newlines replaced and the line [Page current /
    total]. *)
Inductive html :=
  | Blank
  | CoverHtml (image : bytes)
  | PageHtml (safe_text : text) (current total : Z).

(** The [QListWidget] of chapter labels. *)
Record list_widget := ListWidget { items : list string; current_row : Z }.

Record reader := Reader {
  chapters : list text;
  pages : list text;
  current_chapter : Z;
  current_page : Z;
  cover_data : option bytes;
  current_book : option string;
  suppress_load : bool;
  chapter_list : list_widget;
  text_view : html;
  db : database
}.

Definition set_chapters v (s : reader) : reader :=
  Reader v (pages s) (current_chapter s) (current_page s) (cover_data s)
    (current_book s) (suppress_load s) (chapter_list s) (text_view s) (db s).
Definition set_pages v (s : reader) : reader :=
  Reader (chapters s) v (current_chapter s) (current_page s) (cover_data s)
    (current_book s) (suppress_load s) (chapter_list s) (text_view s) (db s).
Definition set_current_chapter v (s : reader) : reader :=
  Reader (chapters s) (pages s) v (current_page s) (cover_data s)
    (current_book s) (suppress_load s) (chapter_list s) (text_view s) (db s).
Definition set_current_page v (s : reader) : reader :=
  Reader (chapters s) (pages s) (current_chapter s) v (cover_data s)
    (current_book s) (suppress_load s) (chapter_list s) (text_view s) (db s).
Definition set_cover_data v (s : reader) : reader :=
  Reader (chapters s) (pages s) (current_chapter s) (current_page s) v
    (current_book s) (suppress_load s) (chapter_list s) (text_view s) (db s).
Definition set_current_book v (s : reader) : reader :=
  Reader (chapters s) (pages s) (current_chapter s) (current_page s)
    (cover_data s) v (suppress_load s) (chapter_list s) (text_view s) (db s).
Definition set_suppress_load v (s : reader) : reader :=
  Reader (chapters s) (pages s) (current_chapter s) (current_page s)
    (cover_data s) (current_book s) v (chapter_list s) (text_view s) (db s).
Definition set_chapter_list v (s : reader) : reader :=
  Reader (chapters s) (pages s) (current_chapter s) (current_page s)
    (cover_data s) (current_book s) (suppress_load s) v (text_view s) (db s).
Definition set_text_view v (s : reader) : reader :=
  Reader (chapters s) (pages s) (current_chapter s) (current_page s)
    (cover_data s) (current_book s) (suppress_load s) (chapter_list s) v (db s).
Definition set_db v (s : reader) : reader :=
  Reader (chapters s) (pages s) (current_chapter s) (current_page s)
    (cover_data s) (current_book s) (suppress_load s) (chapter_list s)
    (text_view s) v.

(** ** Methods: state and exceptions *)

Inductive exception :=
  | OperationalError   (* sqlite3: the storage layer is unavailable *)
  | IndexError         (* list index out of range *)
  | EpubException      (* ebooklib: the archive cannot be read *)
  | OverflowError.     (* sqlite3: an integer too large to bind *)

Inductive outcome (A : Type) :=
  | Return (a : A)
  | Raise (e : exception).
Arguments Return {A} a.
Arguments Raise {A} e.

Definition M (A : Type) : Type := reader -> outcome A * reader.

#[global] Instance M_ret : MRet M := fun A a s => (Return a, s).
#[global] Instance M_bind : MBind M := fun A B f m s =>
  match m s with
  | (Return a, s') => f a s'
  | (Raise e, s') => (Raise e, s')
  end.

Definition raise {A} (e : exception) : M A := fun s => (Raise e, s).
Definition self : M reader := fun s => (Return s, s).
Definition assign (f : reader -> reader) : M unit := fun s => (Return tt, f s).

(** Truth values of the attributes tested by [if]: [None], the empty
    string and the empty byte string are false. *)
Definition truthy_str (o : option string) : bool :=
  match o with Some (String _ _) => true | _ => false end.
Definition truthy_bytes (o : option bytes) : bool :=
  match o with Some (_ :: _) => true | _ => false end.
Definition truthy_list {A} (l : list A) : bool :=
  match l with [] => false | _ :: _ => true end.

(** One call into sqlite3 ([connect] ... [close]): it either raises,
    leaving the table as it was, or runs the statement. *)
Definition sqlite {A} (stmt : table -> A * table) : M A :=
  s ← self;
  match outages (db s) with
  | true :: rest =>
      assign (set_db (Database (progress (db s)) rest));; raise OperationalError
  | rest =>
      let '(a, t) := stmt (progress (db s)) in
      assign (set_db (Database t (tail rest)));; mret a
  end.

Definition save_progress (path : string) (c p : Z) : M unit :=
  sqlite (fun t => (tt, upsert path c p t)).



(** [return row if row else (0, 0)]: a fetched row is a pair, hence true. *)
Definition load_progress (path : option string) : M (Z * Z) :=
  sqlite (fun t => (default (0, 0) (select path t), t)).

(** ** Chapter and page handling *)

(** The marker stored as the text of the synthetic cover chapter. *)
Definition COVER : text := list_ascii_of_string "__COVER__".

(** [text.replace("\n", "<br>")] *)
Definition replace_newlines (t : text) : text :=
  flat_map (fun c => if Ascii.eqb c "010"%char
                     then list_ascii_of_string "<br>" else [c]) t.

(** [l[i]] as a statement: raises [IndexError] when out of range. *)
Definition subscript {A} (l : list A) (i : Z) : M A :=
  match index l i with
  | Some x => mret x
  | None => raise IndexError
  end.

Definition display_page : M unit :=
  s ← self;
  if truthy_list (pages s) then
    t ← subscript (pages s) (current_page s);
    let total := len (pages s) in
    let current := current_page s + 1 in
    let safe_text := replace_newlines t in
    assign (set_text_view (PageHtml safe_text current total));;
    match current_book s with
    | Some book =>
        if truthy_str (current_book s)
        then save_progress book (current_chapter s) (current_page s)
        else mret tt
    | None => mret tt
    end
  else mret tt.

Definition load_chapter (i : Z) : M unit :=
  s ← self;
  if suppress_load s then mret tt
  else if (i <? 0) || (len (chapters s) <=? i) then mret tt
  else
    match current_book s with
    | Some book =>
        if truthy_str (current_book s) then save_progress book i 0
        else mret tt
    | None => mret tt
    end;;
    chapter_text ← subscript (chapters s) i;
    if bool_decide (chapter_text = COVER) && truthy_bytes (cover_data s) then
      assign (set_text_view (CoverHtml (default [] (cover_data s))));;
      assign (set_pages []);;
      assign (set_current_chapter i);;
      assign (set_current_page 0)
    else
      assign (set_current_chapter i);;
      assign (set_pages (paginate_chapter chapter_text));;
      '(_, saved_page) ← load_progress (current_book s);
      s' ← self;
      assign (set_current_page (Z.min saved_page (len (pages s') - 1)));;
      display_page.

Definition next_page : M unit :=
  s ← self;
  if truthy_list (pages s) && (current_page s <? len (pages s) - 1) then
    assign (set_current_page (current_page s + 1));;
    display_page
  else mret tt.

Definition prev_page : M unit :=
  s ← self;
  if truthy_list (pages s) && (0 <? current_page s) then
    assign (set_current_page (current_page s - 1));;
    display_page
  else mret tt.

(** ** The chapter list widget

    [currentRowChanged] is connected to [load_chapter]: whenever the
    current row of the widget changes, [load_chapter] runs with the new
    row.  Rows are appended without touching the current row; a row
    inserted at or before the current one moves it down. *)

Definition emit_currentRowChanged (old new : Z) : M unit :=
  if old =? new then mret tt else load_chapter new.

Definition chapter_list_clear : M unit :=
  s ← self;
  assign (set_chapter_list (ListWidget [] (-1)));;
  emit_currentRowChanged (current_row (chapter_list s)) (-1).

Definition chapter_list_addItem (label : string) : M unit :=
  s ← self;
  let w := chapter_list s in
  assign (set_chapter_list (ListWidget (items w ++ [label]) (current_row w))).

Definition chapter_list_insertItem0 (label : string) : M unit :=
  s ← self;
  let w := chapter_list s in
  let r := current_row w in
  assign (set_chapter_list
            (ListWidget (label :: items w) (if 0 <=? r then r + 1 else r))).

Definition chapter_list_setCurrentRow (r : Z) : M unit :=
  s ← self;
  let w := chapter_list s in
  let new := if (0 <=? r) && (r <? len (items w)) then r else -1 in
  assign (set_chapter_list (ListWidget (items w) new));;
  emit_currentRowChanged (current_row w) new.

(** ** Loading a book *)

(** The item types of ebooklib. *)
Inductive item_type :=
  | ITEM_UNKNOWN | ITEM_IMAGE | ITEM_STYLE | ITEM_SCRIPT | ITEM_NAVIGATION
  | ITEM_VECTOR | ITEM_FONT | ITEM_VIDEO | ITEM_AUDIO | ITEM_DOCUMENT
  | ITEM_COVER | ITEM_SMIL.

#[global] Instance item_type_eq_dec : EqDecision item_type.
Proof. solve_decision. Defined.

Record epub_item := EpubItem {
  get_type : item_type;
  get_name : string;
  get_content : bytes
}.

(** A book as the code sees it: the sequence [book.get_items()]. *)
Definition epub_book := list epub_item.

(** The package behind a book: the manifest, its items under their ids in
    the order they are listed, and the spine, the reading order declared
    as a list of ids.  [book.get_items()] yields the items in manifest
    order; [book.spine] is never read by the code. *)
Record epub_package := EpubPackage {
  manifest : list (string * epub_item);
  spine : list string
}.

Definition get_items (pkg : epub_package) : epub_book := snd <$> manifest pkg.

(** The items the spine names, in spine order. *)
Definition spine_items (pkg : epub_package) : epub_book :=
  omap (fun id => snd <$> List.find (fun e => String.eqb (fst e) id)
                             (manifest pkg))
       (spine pkg).

(** [str.lower], on ASCII letters. *)
Definition lower_char (c : ascii) : ascii :=
  let n := N_of_ascii c in
  if ((65 <=? n) && (n <=? 90))%N then ascii_of_N (n + 32) else c.

Fixpoint lower (s : string) : string :=
  match s with
  | EmptyString => EmptyString
  | String c s' => String (lower_char c) (lower s')
  end.

(** [sub in s] *)
Fixpoint contains (sub s : string) : bool :=
  String.prefix sub s ||
  match s with
  | EmptyString => false
  | String _ s' => contains sub s'
  end.

(** [f"Chapter {n}"] *)
Definition chapter_label (n : Z) : string :=
  "Chapter " ++ NilZero.string_of_int (Z.to_int n).

(** [os.path.abspath].  A book file is named here by its absolute,
    normalised path, the string that [os.path.abspath] returns and under
    which the code keeps and records the book: the [path] given to
    [load_epub] stands for the path in that form, which [os.path.abspath]
    leaves as it is. *)
Definition abspath (path : string) : string := path.

(** [epub.read_epub(path)]: the archive at [path] is given by what
    reading it yields, [None] when it cannot be read as an EPUB. *)
Definition read_epub (archive : option epub_book) : M epub_book :=
  match archive with
  | Some book => mret book
  | None => raise EpubException
  end.

(** [load_epub] is written block by block, as the method is laid out. *)

(** Cover extraction.  The first loop stops at the first item typed as
    the cover; the second, run when no cover with content was found,
    stops at the first image whose name mentions "cover". *)
Definition explicit_cover (book : epub_book) : option bytes :=
  get_content <$>
    List.find (fun it => bool_decide (get_type it = ITEM_COVER)) book.

Definition named_cover (book : epub_book) : option bytes :=
  get_content <$>
    List.find (fun it => bool_decide (get_type it = ITEM_IMAGE)
                         && contains "cover" (lower (get_name it))) book.

Definition extract_cover (book : epub_book) : M unit :=
  match explicit_cover book with
  | Some c => assign (set_cover_data (Some c))
  | None => mret tt
  end;;
  s ← self;
  if negb (truthy_bytes (cover_data s)) then
    match named_cover book with
    | Some c => assign (set_cover_data (Some c))
    | None => mret tt
    end
  else mret tt.

(** Insert cover as chapter 0. *)
Definition insert_cover : M unit :=
  s ← self;
  if truthy_bytes (cover_data s) then
    assign (set_chapters (COVER :: chapters s));;
    chapter_list_insertItem0 "Cover Page"
  else mret tt.

(** Restore progress. *)
Definition restore_progress : M unit :=
  s ← self;
  '(chapter, page) ← load_progress (current_book s);
  assign (set_suppress_load true);;
  chapter_list_setCurrentRow chapter;;
  assign (set_current_chapter chapter);;
  assign (set_current_page page);;
  assign (set_suppress_load false);;
  load_chapter chapter;;
  s' ← self;
  assign (set_current_page (Z.min page (len (pages s') - 1)));;
  display_page.

Section Loading.

(** [BeautifulSoup(content, "html.parser").get_text(separator="\\n",
    strip=True)]: the text extractor is a capability of the markup
    library, and the loader is parametric in it. *)
Variable get_text : bytes -> text.

(** Chapter extraction, with its counter. *)
Fixpoint extract_chapters (book : epub_book) (chapter_counter : Z)
  : M unit :=
  match book with
  | [] => mret tt
  | it :: rest =>
      if bool_decide (get_type it = ITEM_DOCUMENT) then
        let t := get_text (get_content it) in
        if truthy_list t then
          s ← self;
          assign (set_chapters (chapters s ++ [t]));;
          chapter_list_addItem (chapter_label chapter_counter);;
          extract_chapters rest (chapter_counter + 1)
        else extract_chapters rest chapter_counter
      else extract_chapters rest chapter_counter
  end.

Definition load_epub (path : string) (archive : option epub_book)
  : M unit :=
  assign (set_current_book (Some (abspath path)));;
  book ← read_epub archive;
  assign (set_chapters []);;
  chapter_list_clear;;
  assign (set_cover_data None);;
  extract_cover book;;
  extract_chapters book 1;;
  insert_cover;;
  restore_progress.

End Loading.

(** ** The session as the specification names it *)

(** A fresh reader: the attributes set by [__init__], over the database
    found on disk. *)
Definition init (d : database) : reader :=
  Reader [] [] 0 0 None None false (ListWidget [] (-1)) Blank d.

(** The three display states, read off what the viewer shows. *)
Inductive session_state := NoBookLoaded | CoverDisplayed | PageDisplayed.

Definition state_of (s : reader) : session_state :=
  match text_view s with
  | Blank => NoBookLoaded
  | CoverHtml _ => CoverDisplayed
  | PageHtml _ _ _ => PageDisplayed
  end.

(** The number of pages of the active chapter. *)
Definition pageCount (s : reader) : Z := len (pages s).

(** The storage layer answers every coming call. *)
Definition available (s : reader) : Prop := outages (db s) = [].

(** ** What the loops of [load_epub] compute *)

(** The cover kept after both cover loops: the explicit cover when it has
    content, otherwise the named image when there is one. *)
Definition resolved_cover (book : epub_book) : option bytes :=
  match explicit_cover book with
  | Some c =>
      if truthy_bytes (Some c) then Some c
      else match named_cover book with
           | Some c' => Some c'
           | None => Some c
           end
  | None => named_cover book
  end.

(** The extracted sections, in the order of [get_items], and those of
    them that survive the emptiness test. *)
Definition sections (get_text : bytes -> text) (book : epub_book)
  : list text :=
  (fun it => get_text (get_content it)) <$>
    List.filter (fun it => bool_decide (get_type it = ITEM_DOCUMENT)) book.

Definition surviving (get_text : bytes -> text) (book : epub_book)
  : list text :=
  List.filter truthy_list (sections get_text book).

(** The chapter list assembled from a book, and the index of its first
    text chapter. *)
Definition first_text_index (book : epub_book) : Z :=
  if truthy_bytes (resolved_cover book) then 1 else 0.

Definition assembled (get_text : bytes -> text) (book : epub_book)
  : list text :=
  (if truthy_bytes (resolved_cover book) then [COVER] else [])
    ++ surviving get_text book.

(** The labels [Chapter k], [Chapter k+1], ... for [n] chapters. *)
Fixpoint chapter_labels (n : nat) (k : Z) : list string :=
  match n with
  | O => []
  | S n' => chapter_label k :: chapter_labels n' (k + 1)
  end.

Definition assembled_labels (get_text : bytes -> text) (book : epub_book)
  : list string :=
  (if truthy_bytes (resolved_cover book) then ["Cover Page"%string] else [])
    ++ chapter_labels (length (surviving get_text book)) 1.

(** The reader once the book at [path] has been read and its chapter list
    assembled, before progress is restored. *)
Definition assembled_reader (get_text : bytes -> text) (path : string)
    (book : epub_book) (s : reader) : reader :=
  set_chapter_list (ListWidget (assembled_labels get_text book) (-1))
    (set_chapters (assembled get_text book)
       (set_cover_data (resolved_cover book)
          (set_current_book (Some (abspath path)) s))).

(** A method leaves an attribute alone, whatever its outcome. *)
Definition preserves {A X} (field : reader -> X) (m : M A) : Prop :=
  forall s, field (snd (m s)) = field s.

(** The attribute is none of those written while restoring progress or
    turning pages. *)
Record untouched {X} (field : reader -> X) : Prop := {
  untouched_db : forall v s, field (set_db v s) = field s;
  untouched_pages : forall v s, field (set_pages v s) = field s;
  untouched_chapter : forall v s, field (set_current_chapter v s) = field s;
  untouched_page : forall v s, field (set_current_page v s) = field s;
  untouched_view : forall v s, field (set_text_view v s) = field s;
  untouched_suppress : forall v s, field (set_suppress_load v s) = field s
}.

(** A method that returns normally has met no failing storage call: the
    outcomes it consumed were all successes. *)
Definition swallows_no_outage {A} (m : M A) : Prop :=
  forall s a s', m s = (Return a, s') ->
    exists k, outages (db s) = replicate k false ++ outages (db s').

(** ** Sample books and sessions *)

(** A stand-in extractor: the content bytes read as characters. *)
Definition plain_text (content : bytes) : text := ascii_of_byte <$> content.

Definition document (t : string) : epub_item :=
  EpubItem ITEM_DOCUMENT "chapter.xhtml"
    (byte_of_ascii <$> list_ascii_of_string t).

Definition long_document (n : nat) : epub_item :=
  EpubItem ITEM_DOCUMENT "long.xhtml" (repeat x61 n).

Definition cover_image : epub_item := EpubItem ITEM_COVER "cover.jpg" [xff; xd8].

Definition stylesheet : epub_item := EpubItem ITEM_STYLE "style.css" [x7b; x7d].

(** A cover, then two sections with text around two without. *)
Definition covered_book : epub_book :=
  [cover_image; document "One"; document ""; document ""; document "Two"].

(** One chapter of two pages. *)
Definition long_book : epub_book := [long_document 2001].

(** Nothing to read: no cover and only empty sections. *)
Definition blank_book : epub_book := [stylesheet; document ""; document ""].

(** A package whose manifest lists its two sections in the reverse of the
    reading order its spine declares. *)
Definition shuffled_package : epub_package :=
  EpubPackage [("second"%string, document "Two");
               ("first"%string, document "One")]
              ["first"%string; "second"%string].

(** The long book open on its first page, the store failing next. *)
Definition outage_session : reader :=
  let s := snd (load_epub plain_text "/long.epub" (Some long_book)
                  (init (Database [] []))) in
  set_db (Database (progress (db s)) [true]) s.

(** The covered book open on its first text chapter, which has a single
    page. *)
Definition reading_session : reader :=
  snd (load_epub plain_text "/book.epub" (Some covered_book)
         (init (Database [Row "/book.epub" 1 0] []))).

(** ** The rest of the window: opening from the dialog, events, fonts *)

(** [open_epub]: [choice] is the path returned by the file dialog, empty
    when the dialog was dismissed. *)
Definition open_epub (get_text : bytes -> text) (choice : string)
    (archive : option epub_book) : M unit :=
  if truthy_str (Some choice) then load_epub get_text choice archive
  else mret tt.

(** [init_database]: [CREATE TABLE IF NOT EXISTS] keeps a table that is
    there. *)
Definition init_database : M unit := sqlite (fun t => (tt, t)).

(** What the user can do to the reading part of the window, each wired to
    its slot: the menu entry and the button to [open_epub], a row of the
    chapter list to [load_chapter] through [currentRowChanged], the two
    page buttons to [prev_page] and [next_page]. *)
Inductive event :=
  | OpenEpub (choice : string) (archive : option epub_book)
  | SelectRow (row : Z)
  | PrevPage
  | NextPage.

Definition handle (get_text : bytes -> text) (e : event) : M unit :=
  match e with
  | OpenEpub choice archive => open_epub get_text choice archive
  | SelectRow row => chapter_list_setCurrentRow row
  | PrevPage => prev_page
  | NextPage => next_page
  end.

(** The event loop: slots run one after the other, until one raises. *)
Fixpoint handle_all (get_text : bytes -> text) (es : list event) : M unit :=
  match es with
  | [] => mret tt
  | e :: es' => handle get_text e;; handle_all get_text es'
  end.

(** The font attributes: [font_size], the current text of
    [font_selector], and the font last given to [text_view.setFont]. *)
Record fonts := Fonts {
  font_size : Z;
  font_selector : string;
  view_font : string * Z
}.

(** As [__init__] leaves them: the selector shows its first entry. *)
Definition init_fonts : fonts :=
  Fonts 14 "Times New Roman" ("Times New Roman"%string, 14).

Definition increase_font (f : fonts) : fonts :=
  let size := font_size f + 2 in
  Fonts size (font_selector f) (font_selector f, size).

Definition decrease_font (f : fonts) : fonts :=
  if 6 <? font_size f then
    let size := font_size f - 2 in
    Fonts size (font_selector f) (font_selector f, size)
  else f.

Definition change_font_family (family : string) (f : fonts) : fonts :=
  Fonts (font_size f) (font_selector f) (family, font_size f).

(** Choosing an entry of the selector: [currentTextChanged] fires when the
    text changes, with the new text. *)
Definition choose_family (family : string) (f : fonts) : fonts :=
  let f' := Fonts (font_size f) family (view_font f) in
  if String.eqb (font_selector f) family then f'
  else change_font_family family f'.

Inductive font_event := Bigger | Smaller | Family (family : string).

Definition handle_font (e : font_event) (f : fonts) : fonts :=
  match e with
  | Bigger => increase_font f
  | Smaller => decrease_font f
  | Family family => choose_family family f
  end.

(** ** Predicates on the reader *)

(** The postcondition [Q] holds of what [m] does from [s]. *)
Definition wp {A} (m : M A) (Q : outcome A -> reader -> Prop) (s : reader)
  : Prop :=
  Q (fst (m s)) (snd (m s)).

(** When pages are held, the page index addresses one of them. *)
Definition page_in_range (s : reader) : Prop :=
  truthy_list (pages s) = true -> 0 <= current_page s < len (pages s).

(** No record holds a negative page. *)
Definition stored_pages_nonneg (t : table) : Prop :=
  Forall (fun r => 0 <= page r) t.

Definition consistent (s : reader) : Prop :=
  page_in_range s /\ stored_pages_nonneg (progress (db s)).

(** The fonts as the controls keep them. *)
Definition fonts_ok (f : fonts) : Prop :=
  6 <= font_size f /\ Z.even (font_size f) = true /\
  view_font f = (font_selector f, font_size f).

(** The table [t'] comes from [t] by upserts for the one path [book]. *)
Inductive written_for (book : string) (t : table) : table -> Prop :=
  | written_none : written_for book t t
  | written_more t' c p :
      written_for book t t' -> written_for book t (upsert book c p t').

(** The reader after [display_page] has shown page [p] of the held pages
    and recorded it for [book]. *)
Definition shown (book : string) (p : Z) (t : text) (s : reader) : reader :=
  set_db (Database (upsert book (current_chapter s) p (progress (db s))) [])
    (set_text_view (PageHtml (replace_newlines t) (p + 1) (len (pages s)))
       (set_current_page p s)).

(** What every slot guarantees on an available store. *)
Definition carries_on (before : reader) (o : outcome unit) (s' : reader)
  : Prop :=
  o = Return tt /\ available s' /\
  stored_pages_nonneg (progress (db s')) /\
  (page_in_range before -> page_in_range s').

(** The postcondition shared by the slots: the table has only been
    written for [book], and the open book is still [book] or none. *)
Definition wrote_only (book : string) (t0 : table) {A}
    (o : outcome A) (s' : reader) : Prop :=
  written_for book t0 (progress (db s')) /\
  (forall b, current_book s' = Some b -> b = book).

(** What a page turn may change: the page index, by at most [step], the
    displayed document and the store. *)
Definition turned (step : Z) (s : reader) (o : outcome unit) (s' : reader)
  : Prop :=
  pages s' = pages s /\ current_chapter s' = current_chapter s /\
  chapter_list s' = chapter_list s /\ suppress_load s' = suppress_load s /\
  Z.abs (current_page s' - current_page s) <= step.

(** The long book open on its first page, and on its second. *)
Definition long_session : reader :=
  snd (load_epub plain_text "/long.epub" (Some long_book)
         (init (Database [Row "/other.epub" 4 1] []))).

Definition long_session_turned : reader := snd (next_page long_session).

(** The covered book open on "One", the store due to fail at its second
    call. *)
Definition interrupted_session : reader :=
  set_db (Database (progress (db reading_session)) [false; true])
    reading_session.

(** * Properties *)

(** ** Slices, ranges and pages *)

Section Slices.
Context {A : Type}.
Implicit Types l : list A.

Lemma len_nonneg l : 0 <= len l.
Proof. unfold len. lia. Qed.

Lemma slice_forward l i w :
  0 <= i -> 0 <= w ->
  slice l i (i + w) = take (Z.to_nat w) (drop (Z.to_nat i) l).
Proof.
  intros Hi Hw. unfold slice, slice_bound.
  pose proof (len_nonneg l) as Hn. unfold len in *.
  destruct (Z.ltb_spec i 0); [lia|].
  destruct (Z.ltb_spec (i + w) 0); [lia|].
  destruct (Z.le_gt_cases (i + w) (Z.of_nat (length l))) as [Hle|Hgt].
  - rewrite !Z.min_l by lia. f_equal. lia.
  - rewrite (Z.min_r (i + w)) by lia.
    destruct (Z.le_gt_cases i (Z.of_nat (length l))).
    + rewrite Z.min_l by lia.
      rewrite !take_ge; [done | rewrite length_drop; lia | rewrite length_drop; lia].
    + rewrite Z.min_r by lia.
      rewrite !drop_ge by lia. by rewrite !take_nil.
Qed.

Lemma len_slice_forward l i w :
  0 <= i -> 0 <= w ->
  len (slice l i (i + w)) = Z.max 0 (Z.min w (len l - i)).
Proof.
  intros Hi Hw. rewrite slice_forward by done. unfold len.
  rewrite length_take, length_drop. lia.
Qed.
End Slices.

Section Ranges.
Variables stop step : Z.
Hypothesis step_pos : 0 < step.

Lemma range_from_lookup fuel i k x :
  range_from fuel i stop step !! k = Some x ->
  x = i + Z.of_nat k * step /\ x < stop.
Proof.
  revert i k. induction fuel as [|fuel IH]; intros i k; simpl; [done|].
  destruct (Z.ltb_spec i stop); [|done].
  destruct k as [|k]; simpl.
  - intros [= <-]. lia.
  - intros Hk. apply IH in Hk. lia.
Qed.

Lemma range_from_len fuel i :
  stop - i <= Z.of_nat fuel ->
  len (range_from fuel i stop step) = Z.max 0 ((stop - i + step - 1) / step).
Proof.
  revert i. induction fuel as [|fuel IH]; intros i Hf; simpl.
  - unfold len; simpl.
    assert ((stop - i + step - 1) / step <= 0); [|lia].
    apply Z.lt_succ_r. apply Z.div_lt_upper_bound; lia.
  - destruct (Z.ltb_spec i stop).
    + unfold len in *. simpl length. rewrite Nat2Z.inj_succ, (IH (i + step)) by lia.
      replace (stop - i + step - 1) with (stop - (i + step) + step - 1 + 1 * step) by lia.
      rewrite Z.div_add by lia.
      assert (0 <= (stop - (i + step) + step - 1) / step); [|lia].
      apply Z.div_pos; lia.
    + unfold len; simpl.
      assert ((stop - i + step - 1) / step <= 0); [|lia].
      apply Z.lt_succ_r. apply Z.div_lt_upper_bound; lia.
Qed.
End Ranges.

Lemma pages_from_concat (t : text) fuel i :
  0 <= i -> len t - i <= Z.of_nat fuel ->
  concat (map (fun i => slice t i (i + page_size)) (range_from fuel i (len t) page_size))
  = drop (Z.to_nat i) t.
Proof.
  revert i. induction fuel as [|fuel IH]; intros i Hi Hf; simpl.
  - rewrite drop_ge; [done|]. unfold len in *. lia.
  - destruct (Z.ltb_spec i (len t)).
    + simpl. rewrite IH by (unfold page_size; lia).
      rewrite slice_forward by (unfold page_size; lia).
      rewrite <- (take_drop (Z.to_nat page_size) (drop (Z.to_nat i) t)) at 2.
      f_equal. rewrite drop_drop. f_equal. unfold page_size. lia.
    + rewrite drop_ge; [done|]. unfold len in *. lia.
Qed.

Lemma paginate_chapter_concat (t : text) : concat (paginate_chapter t) = t.
Proof.
  unfold paginate_chapter, range. rewrite pages_from_concat; [done|lia|lia].
Qed.

Lemma paginate_chapter_len (t : text) :
  len (paginate_chapter t) = (len t + page_size - 1) / page_size.
Proof.
  unfold paginate_chapter. 
  assert (len (range 0 (len t) page_size) = (len t + page_size - 1) / page_size) as H.
  { unfold range. rewrite range_from_len by (unfold page_size; lia).
    rewrite Z.sub_0_r. apply Z.max_r. apply Z.div_pos; unfold page_size, len; lia. }
  unfold len in *. by rewrite length_map.
Qed.

Lemma paginate_chapter_lookup (t : text) k p :
  paginate_chapter t !! k = Some p ->
  Z.of_nat k * page_size < len t /\
  p = slice t (Z.of_nat k * page_size) (Z.of_nat k * page_size + page_size).
Proof.
  unfold paginate_chapter. rewrite list_lookup_fmap.
  destruct (range 0 (len t) page_size !! k) as [x|] eqn:E; [|done].
  simpl. intros [= <-]. unfold range in E.
  apply range_from_lookup in E as [-> ?]. rewrite Z.add_0_l. done.
Qed.

(** ** The progress table *)

Lemma select_upsert_eq path c p t :
  select (Some path) (upsert path c p t) = Some (c, p).
Proof.
  induction t as [|r t IH]; simpl.
  - by rewrite String.eqb_refl.
  - destruct (String.eqb (book_path r) path) eqn:E; simpl.
    + by rewrite String.eqb_refl.
    + by rewrite E.
Qed.

Lemma select_upsert_ne path path' c p t :
  path' <> path ->
  select (Some path') (upsert path c p t) = select (Some path') t.
Proof.
  intros Hne. induction t as [|r t IH]; simpl.
  - destruct (String.eqb_spec path path'); [congruence|done].
  - destruct (String.eqb_spec (book_path r) path) as [->|]; simpl.
    + destruct (String.eqb_spec path path'); [congruence|done].
    + destruct (String.eqb (book_path r) path'); [done|]. apply IH.
Qed.

Lemma upsert_upsert path c p c' p' t :
  upsert path c' p' (upsert path c p t) = upsert path c' p' t.
Proof.
  induction t as [|r t IH]; simpl.
  - by rewrite String.eqb_refl.
  - destruct (String.eqb (book_path r) path) eqn:E; simpl.
    + by rewrite String.eqb_refl.
    + by rewrite E, IH.
Qed.

Lemma upsert_paths path c p t :
  book_path <$> upsert path c p t =
  if bool_decide (path ∈ book_path <$> t) then book_path <$> t
  else (book_path <$> t) ++ [path].
Proof.
  induction t as [|r t IH]; [done|].
  cbn [upsert]. rewrite !fmap_cons.
  destruct (String.eqb_spec (book_path r) path) as [->|Hne].
  - rewrite bool_decide_eq_true_2; [done|]. left.
  - rewrite fmap_cons, IH. case_bool_decide as Hin.
    + rewrite bool_decide_eq_true_2; [done|]. by right.
    + rewrite bool_decide_eq_false_2; [done|].
      intros [?|?]%elem_of_cons; congruence.
Qed.

Lemma upsert_primary_key path c p t :
  primary_key t -> primary_key (upsert path c p t).
Proof.
  unfold primary_key. intros Hnd. rewrite upsert_paths.
  case_bool_decide as Hin; [done|].
  apply NoDup_app. split; [done|]. split; [|apply NoDup_singleton].
  intros x Hx ->%list_elem_of_singleton. done.
Qed.



(** ** Running the methods *)

Ltac run := unfold mbind, M_bind, mret, M_ret, self, assign, raise; simpl.

Lemma bind_returns {A B} (m : M A) (k : A -> M B) s a s' :
  m s = (Return a, s') -> (m ≫= k) s = k a s'.
Proof. intros H. unfold mbind, M_bind. by rewrite H. Qed.

Lemma bind_raises {A B} (m : M A) (k : A -> M B) s e s' :
  m s = (Raise e, s') -> (m ≫= k) s = (Raise e, s').
Proof. intros H. unfold mbind, M_bind. by rewrite H. Qed.

Lemma set_db_same s : set_db (Database (progress (db s)) (outages (db s))) s = s.
Proof. by destruct s as [? ? ? ? ? ? ? ? ? []]. Qed.

Lemma sqlite_available {A} (stmt : table -> A * table) s :
  available s ->
  sqlite stmt s = (Return (fst (stmt (progress (db s)))),
                   set_db (Database (snd (stmt (progress (db s)))) []) s).
Proof.
  unfold available, sqlite. intros Ha. run. rewrite Ha.
  by destruct (stmt (progress (db s))).
Qed.

Lemma sqlite_outage {A} (stmt : table -> A * table) s rest :
  outages (db s) = true :: rest ->
  sqlite stmt s = (Raise OperationalError,
                   set_db (Database (progress (db s)) rest) s).
Proof. unfold sqlite. intros Ha. run. by rewrite Ha. Qed.

Lemma save_progress_available path c p s :
  available s ->
  save_progress path c p s =
    (Return tt, set_db (Database (upsert path c p (progress (db s))) []) s).
Proof. intros Ha. unfold save_progress. by rewrite sqlite_available. Qed.

Lemma load_progress_available path s :
  available s ->
  load_progress path s =
    (Return (default (0, 0) (select path (progress (db s)))), s).
Proof.
  intros Ha. unfold load_progress. rewrite sqlite_available by done. simpl.
  f_equal. rewrite <- Ha. apply set_db_same.
Qed.

Lemma truthy_str_Some path : path <> ""%string -> truthy_str (Some path) = true.
Proof. by destruct path. Qed.

Lemma display_page_empty s : pages s = [] -> display_page s = (Return tt, s).
Proof. intros H. unfold display_page. run. by rewrite H. Qed.

Lemma display_page_shown s t book :
  index (pages s) (current_page s) = Some t ->
  current_book s = Some book -> book <> ""%string ->
  available s ->
  display_page s =
    (Return tt,
     set_db (Database (upsert book (current_chapter s) (current_page s)
                         (progress (db s))) [])
       (set_text_view (PageHtml (replace_newlines t) (current_page s + 1)
                         (len (pages s))) s)).
Proof.
  intros Hi Hb Hne Ha. unfold display_page. run.
  destruct (pages s) as [|p0 ps] eqn:Ep.
  { unfold index in Hi. simpl in Hi. unfold len in Hi; simpl in Hi.
    destruct (current_page s); simpl in Hi; try done.
    all: by repeat case_match. }
  simpl. unfold subscript. rewrite Hi. run. rewrite Hb.
  rewrite truthy_str_Some by done.
  by rewrite save_progress_available.
Qed.

Lemma index_nil {A} i : index (@nil A) i = None.
Proof. unfold index. by repeat case_match. Qed.

Lemma index_lookup {A} (l : list A) i :
  0 <= i < len l -> index l i = l !! Z.to_nat i.
Proof.
  intros [H0 H1]. unfold index.
  destruct (Z.leb_spec 0 i); [|lia]. destruct (Z.ltb_spec i (len l)); [done|lia].
Qed.

Lemma load_chapter_ignored s i :
  suppress_load s = true \/ i < 0 \/ len (chapters s) <= i ->
  load_chapter i s = (Return tt, s).
Proof.
  intros H. unfold load_chapter. run.
  destruct (suppress_load s); [done|].
  destruct H as [?|H]; [done|].
  destruct (Z.ltb_spec i 0); [done|].
  destruct (Z.leb_spec (len (chapters s)) i); [done|lia].
Qed.

Lemma emit_suppressed s old new :
  suppress_load s = true \/ new < 0 ->
  emit_currentRowChanged old new s = (Return tt, s).
Proof.
  intros H. unfold emit_currentRowChanged.
  destruct (old =? new); [done|]. apply load_chapter_ignored. tauto.
Qed.

Lemma chapter_list_clear_run s :
  chapter_list_clear s = (Return tt, set_chapter_list (ListWidget [] (-1)) s).
Proof.
  unfold chapter_list_clear. run. rewrite emit_suppressed; [done|]. right. lia.
Qed.

Lemma chapter_list_setCurrentRow_suppressed s r :
  suppress_load s = true ->
  exists row,
    chapter_list_setCurrentRow r s =
      (Return tt,
       set_chapter_list (ListWidget (items (chapter_list s)) row) s).
Proof.
  intros H. unfold chapter_list_setCurrentRow. run.
  eexists. rewrite emit_suppressed; [done|]. by left.
Qed.

Lemma extract_chapters_run get_text book k s :
  extract_chapters get_text book k s =
    (Return tt,
     set_chapter_list
       (ListWidget (items (chapter_list s)
                      ++ chapter_labels (length (surviving get_text book)) k)
                   (current_row (chapter_list s)))
       (set_chapters (chapters s ++ surviving get_text book) s)).
Proof.
  revert k s. induction book as [|it rest IH]; intros k s.
  - simpl. unfold surviving, sections. simpl. rewrite !app_nil_r.
    by destruct s as [? ? ? ? ? ? ? []].
  - cbn [extract_chapters]. unfold surviving, sections in *. simpl List.filter.
    case_bool_decide as Hd.
    + rewrite fmap_cons. simpl List.filter.
      destruct (truthy_list (get_text (get_content it))) eqn:Et.
      * unfold chapter_list_addItem. run. rewrite IH. simpl.
        by rewrite <- !app_assoc.
      * apply IH.
    + apply IH.
Qed.

Lemma extract_cover_run book s :
  cover_data s = None ->
  extract_cover book s = (Return tt, set_cover_data (resolved_cover book) s).
Proof.
  intros Hc. unfold extract_cover, resolved_cover. run.
  destruct (explicit_cover book) as [c|]; run.
  - destruct c as [|b c]; simpl.
    + by destruct (named_cover book).
    + done.
  - rewrite Hc. simpl. destruct (named_cover book); simpl; [done|].
    rewrite <- Hc. by destruct s.
Qed.

Lemma load_epub_assembles get_text path book s :
  load_epub get_text path (Some book) s =
    restore_progress (assembled_reader get_text path book s).
Proof.
  unfold load_epub. run.
  rewrite chapter_list_clear_run. simpl.
  rewrite extract_cover_run by done. simpl.
  rewrite extract_chapters_run. simpl.
  unfold insert_cover, assembled_reader, assembled, assembled_labels. run.
  destruct (truthy_bytes (resolved_cover book)); done.
Qed.

Lemma load_epub_unreadable get_text path s :
  load_epub get_text path None s =
    (Raise EpubException, set_current_book (Some (abspath path)) s).
Proof. done. Qed.

#[local] Arguments select : simpl never.
#[local] Arguments upsert : simpl never.
#[local] Arguments paginate_chapter : simpl never.
#[local] Arguments replace_newlines : simpl never.

Lemma paginate_chapter_nonempty (t : text) :
  t <> [] -> exists p0, paginate_chapter t !! 0%nat = Some p0 /\ 1 <= len (paginate_chapter t).
Proof.
  intros Hne.
  assert (1 <= len (paginate_chapter t)) as H.
  { rewrite paginate_chapter_len. unfold page_size.
    apply Z.div_le_lower_bound; [lia|].
    destruct t; [done|]. unfold len. simpl length. lia. }
  destruct (paginate_chapter t) as [|p0 ps] eqn:E.
  - unfold len in H. simpl in H. lia.
  - by exists p0.
Qed.

Lemma load_chapter_text s i book ch :
  suppress_load s = false -> 0 <= i < len (chapters s) ->
  current_book s = Some book -> book <> ""%string -> available s ->
  chapters s !! Z.to_nat i = Some ch ->
  bool_decide (ch = COVER) && truthy_bytes (cover_data s) = false ->
  ch <> [] ->
  exists v,
    load_chapter i s =
      (Return tt,
       set_db (Database (upsert book i 0 (progress (db s))) [])
         (set_text_view v
            (set_current_page 0
               (set_pages (paginate_chapter ch) (set_current_chapter i s))))).
Proof.
  intros Hs Hi Hb Hne Ha Hch Hcov Hnil.
  destruct (paginate_chapter_nonempty ch Hnil) as (p0 & Hp0 & Hlen).
  unfold load_chapter. run. rewrite Hs.
  destruct (Z.ltb_spec i 0); [lia|]. destruct (Z.leb_spec (len (chapters s)) i); [lia|].
  simpl. rewrite Hb, truthy_str_Some by done.
  rewrite save_progress_available by done.
  unfold subscript. rewrite index_lookup by (simpl; lia). simpl. rewrite Hch. run.
  rewrite Hcov. rewrite load_progress_available by done. simpl.
  rewrite select_upsert_eq. simpl.
  rewrite Z.min_l by lia.
  erewrite display_page_shown; [| |done|done|done].
  2:{ simpl. rewrite index_lookup by lia. exact Hp0. }
  simpl. rewrite upsert_upsert. eexists. reflexivity.
Qed.

Lemma load_chapter_cover s i book image :
  suppress_load s = false -> 0 <= i < len (chapters s) ->
  current_book s = Some book -> book <> ""%string -> available s ->
  chapters s !! Z.to_nat i = Some COVER ->
  cover_data s = Some image -> image <> [] ->
  load_chapter i s =
    (Return tt,
     set_current_page 0
       (set_current_chapter i
          (set_pages []
             (set_text_view (CoverHtml image)
                (set_db (Database (upsert book i 0 (progress (db s))) []) s))))).
Proof.
  intros Hs Hi Hb Hne Ha Hch Hcov Hnil.
  unfold load_chapter. run. rewrite Hs.
  destruct (Z.ltb_spec i 0); [lia|]. destruct (Z.leb_spec (len (chapters s)) i); [lia|].
  simpl. rewrite Hb, truthy_str_Some by done.
  rewrite save_progress_available by done.
  unfold subscript. rewrite index_lookup by (simpl; lia). simpl. rewrite Hch. run.
  rewrite Hcov. destruct image; [done|]. done.
Qed.

Lemma load_chapter_outage s i book rest :
  suppress_load s = false -> 0 <= i < len (chapters s) ->
  current_book s = Some book -> book <> ""%string ->
  outages (db s) = true :: rest ->
  load_chapter i s =
    (Raise OperationalError, set_db (Database (progress (db s)) rest) s).
Proof.
  intros Hs Hi Hb Hne Ho.
  unfold load_chapter. run. rewrite Hs.
  destruct (Z.ltb_spec i 0); [lia|]. destruct (Z.leb_spec (len (chapters s)) i); [lia|].
  simpl. rewrite Hb, truthy_str_Some by done.
  unfold save_progress. by erewrite sqlite_outage.
Qed.

Lemma display_page_outage s t book rest :
  index (pages s) (current_page s) = Some t ->
  current_book s = Some book -> book <> ""%string ->
  outages (db s) = true :: rest ->
  display_page s =
    (Raise OperationalError,
     set_db (Database (progress (db s)) rest)
       (set_text_view (PageHtml (replace_newlines t) (current_page s + 1)
                         (len (pages s))) s)).
Proof.
  intros Hi Hb Hne Ho. unfold display_page. run.
  destruct (pages s) as [|p0 ps] eqn:Ep.
  { by rewrite index_nil in Hi. }
  simpl. unfold subscript. rewrite Hi. run. rewrite Hb.
  rewrite truthy_str_Some by done.
  unfold save_progress. by erewrite sqlite_outage.
Qed.

Lemma restore_progress_text s book c p ch :
  current_book s = Some book -> book <> ""%string -> available s ->
  default (0, 0) (select (Some book) (progress (db s))) = (c, p) ->
  0 <= c < len (chapters s) ->
  chapters s !! Z.to_nat c = Some ch ->
  bool_decide (ch = COVER) && truthy_bytes (cover_data s) = false ->
  ch <> [] -> 0 <= p ->
  let landing := Z.min p (len (paginate_chapter ch) - 1) in
  exists t row,
    index (paginate_chapter ch) landing = Some t /\
    restore_progress s =
      (Return tt,
       set_db (Database (upsert book c landing (progress (db s))) [])
         (set_text_view
            (PageHtml (replace_newlines t) (landing + 1)
               (len (paginate_chapter ch)))
            (set_current_page landing
               (set_pages (paginate_chapter ch)
                  (set_current_chapter c
                     (set_suppress_load false
                        (set_chapter_list
                           (ListWidget (items (chapter_list s)) row) s))))))).
Proof.
  intros Hb Hne Ha Hsel Hc Hch Hcov Hnil Hp landing.
  destruct (paginate_chapter_nonempty ch Hnil) as (p0 & Hp0 & Hlen).
  assert (exists t, index (paginate_chapter ch) landing = Some t) as [t Ht].
  { unfold landing. rewrite index_lookup by lia.
    apply lookup_lt_is_Some. unfold len in *. lia. }
  exists t. unfold restore_progress.
  rewrite (bind_returns _ _ s s s) by done.
  rewrite Hb, (bind_returns _ _ _ _ _ (load_progress_available _ _ Ha)).
  rewrite Hsel. run.
  destruct (chapter_list_setCurrentRow_suppressed
              (set_suppress_load true s) c eq_refl) as [row Hrow].
  rewrite Hrow. simpl.
  edestruct load_chapter_text as [v Hv]; last (rewrite Hv); try done.
  simpl.
  erewrite display_page_shown; [|exact Ht|done|done|done].
  simpl. rewrite upsert_upsert. by exists row.
Qed.

(** ** Attributes that navigation leaves alone *)

Section Frames.
Context {X : Type} (field : reader -> X).

Lemma preserves_ret {A} (a : A) : preserves field (mret a).
Proof. by intros s. Qed.

Lemma preserves_raise {A} e : preserves field (@raise A e).
Proof. by intros s. Qed.

Lemma preserves_self : preserves field self.
Proof. by intros s. Qed.

Lemma preserves_bind {A B} (m : M A) (k : A -> M B) :
  preserves field m -> (forall a, preserves field (k a)) ->
  preserves field (m ≫= k).
Proof.
  intros Hm Hk s. unfold mbind, M_bind. specialize (Hm s).
  destruct (m s) as [[a|e] s1]; simpl in *; [|done].
  by rewrite Hk.
Qed.

Lemma preserves_assign (g : reader -> reader) :
  (forall s, field (g s) = field s) -> preserves field (assign g).
Proof. intros Hg s. apply Hg. Qed.

Hypothesis Hfield : untouched field.

Lemma preserves_sqlite {A} (stmt : table -> A * table) :
  preserves field (sqlite stmt).
Proof.
  unfold sqlite. apply preserves_bind; [apply preserves_self|]. intros s.
  destruct (outages (db s)) as [|[] rest].
  - destruct (stmt _). apply preserves_bind; [|intros; apply preserves_ret].
    apply preserves_assign, Hfield.
  - apply preserves_bind; [|intros; apply preserves_raise].
    apply preserves_assign, Hfield.
  - destruct (stmt _). apply preserves_bind; [|intros; apply preserves_ret].
    apply preserves_assign, Hfield.
Qed.

Lemma preserves_subscript {A} (l : list A) i : preserves field (subscript l i).
Proof. unfold subscript. destruct (index l i); [apply preserves_ret|apply preserves_raise]. Qed.

Ltac frame :=
  repeat first
    [ apply preserves_ret | apply preserves_raise | apply preserves_self
    | apply preserves_sqlite | apply preserves_subscript
    | apply preserves_assign; apply Hfield
    | apply preserves_bind; [|intros ?]
    | match goal with |- preserves _ (match ?x with _ => _ end) => destruct x end ].

Lemma preserves_display_page : preserves field display_page.
Proof. unfold display_page, save_progress. frame. Qed.

Lemma preserves_load_chapter i : preserves field (load_chapter i).
Proof.
  unfold load_chapter, save_progress, load_progress. frame.
Qed.

Lemma preserves_next_page : preserves field next_page.
Proof. unfold next_page. frame. Qed.

Lemma preserves_prev_page : preserves field prev_page.
Proof. unfold prev_page. frame. Qed.

(** Moving the current row of the chapter list changes no label. *)
Hypothesis Hrow : forall r s,
  field (set_chapter_list (ListWidget (items (chapter_list s)) r) s)
  = field s.

Lemma preserves_setCurrentRow r :
  preserves field (chapter_list_setCurrentRow r).
Proof.
  intros s. unfold chapter_list_setCurrentRow. run.
  unfold emit_currentRowChanged. case_match; simpl; [apply Hrow|].
  rewrite preserves_load_chapter. apply Hrow.
Qed.

Lemma preserves_restore_progress : preserves field restore_progress.
Proof.
  unfold restore_progress, load_progress.
  apply preserves_bind; [apply preserves_self|intros s0].
  apply preserves_bind; [apply preserves_sqlite|intros [c p]].
  apply preserves_bind; [apply preserves_assign, Hfield|intros _].
  apply preserves_bind; [apply preserves_setCurrentRow|intros _].
  frame.
Qed.
End Frames.

Lemma untouched_chapters : untouched chapters.
Proof. by split. Qed.

Lemma untouched_cover_data : untouched cover_data.
Proof. by split. Qed.

Lemma untouched_current_book : untouched current_book.
Proof. by split. Qed.

Lemma untouched_items : untouched (fun s => items (chapter_list s)).
Proof. by split. Qed.

(** ** Restoring progress, case by case *)

Lemma index_Some_truthy {A} (l : list A) i x :
  index l i = Some x -> truthy_list l = true.
Proof. destruct l; [by rewrite index_nil|done]. Qed.

Lemma restore_progress_outage s rest :
  outages (db s) = true :: rest ->
  restore_progress s =
    (Raise OperationalError, set_db (Database (progress (db s)) rest) s).
Proof.
  intros Ho. unfold restore_progress.
  rewrite (bind_returns _ _ s s s) by done.
  apply bind_raises. unfold load_progress. by apply sqlite_outage.
Qed.

Lemma restore_progress_out_of_range s c p :
  available s ->
  default (0, 0) (select (current_book s) (progress (db s))) = (c, p) ->
  c < 0 \/ len (chapters s) <= c ->
  pages s = [] ->
  exists row,
    restore_progress s =
      (Return tt,
       set_current_page (Z.min p (-1))
         (set_current_chapter c
            (set_suppress_load false
               (set_chapter_list
                  (ListWidget (items (chapter_list s)) row) s)))).
Proof.
  intros Ha Hsel Hc Hp. unfold restore_progress.
  rewrite (bind_returns _ _ s s s) by done.
  rewrite (bind_returns _ _ _ _ _ (load_progress_available _ _ Ha)).
  rewrite Hsel. run.
  destruct (chapter_list_setCurrentRow_suppressed (set_suppress_load true s) c eq_refl)
    as [row Hrow].
  rewrite Hrow. simpl.
  rewrite load_chapter_ignored by (simpl; tauto). simpl.
  rewrite Hp. rewrite display_page_empty by done.
  exists row. done.
Qed.

Lemma restore_progress_cover s book c p image :
  current_book s = Some book -> book <> ""%string -> available s ->
  default (0, 0) (select (Some book) (progress (db s))) = (c, p) ->
  0 <= c < len (chapters s) ->
  chapters s !! Z.to_nat c = Some COVER ->
  cover_data s = Some image -> image <> [] ->
  exists row,
    restore_progress s =
      (Return tt,
       set_current_page (Z.min p (-1))
         (set_current_chapter c
            (set_pages []
               (set_text_view (CoverHtml image)
                  (set_db (Database (upsert book c 0 (progress (db s))) [])
                     (set_suppress_load false
                        (set_chapter_list
                           (ListWidget (items (chapter_list s)) row) s))))))).
Proof.
  intros Hb Hne Ha Hsel Hc Hch Hcov Hnil. unfold restore_progress.
  rewrite (bind_returns _ _ s s s) by done.
  rewrite Hb, (bind_returns _ _ _ _ _ (load_progress_available _ _ Ha)).
  rewrite Hsel. run.
  destruct (chapter_list_setCurrentRow_suppressed (set_suppress_load true s) c eq_refl)
    as [row Hrow].
  rewrite Hrow. simpl.
  erewrite load_chapter_cover; try done. simpl.
  rewrite display_page_empty by done.
  exists row. done.
Qed.

Lemma surviving_nonempty get_text book t :
  t ∈ surviving get_text book -> t <> [].
Proof.
  unfold surviving. rewrite list_elem_of_In, filter_In. intros [_ Ht] ->. done.
Qed.

Lemma surviving_sublist get_text book :
  surviving get_text book `sublist_of` sections get_text book.
Proof.
  unfold surviving. induction (sections get_text book) as [|t l IH]; simpl.
  - constructor.
  - destruct (truthy_list t); by constructor.
Qed.

Lemma assembled_nonempty get_text book t :
  t ∈ assembled get_text book -> t <> [].
Proof.
  unfold assembled. intros [Ht|Ht]%elem_of_app.
  - destruct (truthy_bytes _); [|by apply elem_of_nil in Ht].
    apply list_elem_of_singleton in Ht as ->. done.
  - by eapply surviving_nonempty.
Qed.

Lemma len_app {A} (l k : list A) : len (l ++ k) = len l + len k.
Proof. unfold len. rewrite length_app. lia. Qed.

(** ** No storage failure is swallowed *)

Lemma swallows_ret {A} (a : A) : swallows_no_outage (mret a).
Proof. intros s a' s' [= _ <-]. by exists 0%nat. Qed.

Lemma swallows_raise {A} e : swallows_no_outage (@raise A e).
Proof. by intros s a s'. Qed.

Lemma swallows_self : swallows_no_outage self.
Proof. intros s a s' [= _ <-]. by exists 0%nat. Qed.

Lemma swallows_assign (g : reader -> reader) :
  (forall s, db (g s) = db s) -> swallows_no_outage (assign g).
Proof.
  intros Hg s a s' H. unfold assign in H. injection H as _ <-.
  exists 0%nat. by rewrite Hg.
Qed.

Lemma swallows_bind {A B} (m : M A) (k : A -> M B) :
  swallows_no_outage m -> (forall a, swallows_no_outage (k a)) ->
  swallows_no_outage (m ≫= k).
Proof.
  intros Hm Hk s b s'. unfold mbind, M_bind.
  destruct (m s) as [[a|e] s1] eqn:E; [|done].
  intros Hrun. destruct (Hm _ _ _ E) as [k1 H1].
  destruct (Hk _ _ _ _ Hrun) as [k2 H2].
  exists (k1 + k2)%nat. by rewrite H1, H2, replicate_add, app_assoc.
Qed.

Lemma swallows_sqlite {A} (stmt : table -> A * table) :
  swallows_no_outage (sqlite stmt).
Proof.
  intros s a s'. unfold sqlite. run.
  destruct (outages (db s)) as [|[] rest] eqn:E; [| done |].
  - destruct (stmt _). intros [= _ <-]. by exists 0%nat.
  - destruct (stmt _). intros [= _ <-]. by exists 1%nat.
Qed.

Lemma swallows_subscript {A} (l : list A) i : swallows_no_outage (subscript l i).
Proof.
  unfold subscript. destruct (index l i); [apply swallows_ret|apply swallows_raise].
Qed.

Ltac quiet :=
  repeat first
    [ apply swallows_ret | apply swallows_raise | apply swallows_self
    | apply swallows_sqlite | apply swallows_subscript
    | apply swallows_assign; intros ?; reflexivity
    | apply swallows_bind; [|intros ?]
    | match goal with
      | |- swallows_no_outage (match ?x with _ => _ end) => destruct x
      end ].

Lemma swallows_display_page : swallows_no_outage display_page.
Proof. unfold display_page, save_progress. quiet. Qed.

Lemma swallows_load_chapter i : swallows_no_outage (load_chapter i).
Proof. unfold load_chapter, save_progress, load_progress. quiet. Qed.

Lemma swallows_next_page : swallows_no_outage next_page.
Proof. unfold next_page. quiet. Qed.

Lemma swallows_prev_page : swallows_no_outage prev_page.
Proof. unfold prev_page. quiet. Qed.

Lemma swallows_restore_progress : swallows_no_outage restore_progress.
Proof.
  unfold restore_progress, load_progress, chapter_list_setCurrentRow,
    emit_currentRowChanged.
  quiet.
Qed.

Lemma swallows_load_epub get_text path archive :
  swallows_no_outage (load_epub get_text path archive).
Proof.
  intros s a s'. destruct archive as [book|]; [|done].
  rewrite load_epub_assembles. intros Hrun.
  exact (swallows_restore_progress _ _ _ Hrun).
Qed.

(** * The claims *)

(** C5.  Concatenating the pages of a chapter, in page order, gives back
    the chapter text: nothing is dropped or repeated, and each page is the
    stretch of text that starts where the pages before it end. *)
Theorem paginate_chapter_roundtrip (t : text) :
  concat (paginate_chapter t) = t /\
  forall k p, paginate_chapter t !! k = Some p ->
    p = take (length p) (drop (length (concat (take k (paginate_chapter t)))) t).
Proof.
  pose proof (paginate_chapter_concat t) as Hc. split; [done|].
  intros k p Hk.
  rewrite <- (take_drop_middle _ _ _ Hk) in Hc.
  rewrite concat_app, concat_cons in Hc.
  rewrite <- Hc at 2. rewrite drop_app_length, take_app_length. done.
Qed.

Lemma paginate_chapter_page_len (t : text) k p :
  paginate_chapter t !! k = Some p ->
  len p = Z.min page_size (len t - Z.of_nat k * page_size) /\
  Z.of_nat k * page_size < len t.
Proof.
  intros [Hlt ->]%paginate_chapter_lookup. split; [|done].
  rewrite len_slice_forward by (unfold page_size; lia).
  unfold page_size in *. lia.
Qed.

(** C6.  With pages of 2000 characters a chapter of length L has
    ceil(L/2000) pages, none when it is empty; every page but the last
    has exactly 2000 characters and the last has between 1 and 2000; a
    chapter of 4001 characters has pages of 2000, 2000 and 1. *)
Theorem paginate_chapter_count_and_sizes (t : text) :
  let n := len (paginate_chapter t) in
  page_size = 2000 /\
  (t = [] -> paginate_chapter t = []) /\
  (0 < len t -> page_size * (n - 1) < len t <= page_size * n) /\
  n = (len t + 1999) / 2000 /\
  (forall k p, paginate_chapter t !! k = Some p ->
     (Z.of_nat k < n - 1 -> len p = 2000) /\
     (Z.of_nat k = n - 1 -> 1 <= len p <= 2000)) /\
  (len t = 4001 -> len <$> paginate_chapter t = [2000; 2000; 1]).
Proof.
  intros n.
  assert (n = (len t + 1999) / 2000) as Hn.
  { unfold n. rewrite paginate_chapter_len. unfold page_size. f_equal. lia. }
  assert (0 <= len t) as Ht by apply len_nonneg.
  assert (2000 * (n - 1) < len t + 0 /\ len t <= 2000 * n) as Hceil.
  { pose proof (Z.div_mod (len t + 1999) 2000 ltac:(lia)) as Hd.
    pose proof (Z.mod_pos_bound (len t + 1999) 2000 ltac:(lia)) as Hm.
    rewrite <- Hn in Hd. lia. }
  assert (forall k p, paginate_chapter t !! k = Some p ->
     (Z.of_nat k < n - 1 -> len p = 2000) /\
     (Z.of_nat k = n - 1 -> 1 <= len p <= 2000)) as Hpages.
  { intros k p [Hp Hk]%paginate_chapter_page_len. unfold page_size in *. lia. }
  split; [done|]. split; [by intros ->|]. split; [unfold page_size; lia|].
  split; [done|]. split; [done|].
  intros H4001.
  assert (n = 3) as Hn3 by (rewrite Hn, H4001; reflexivity).
  unfold n, len in Hn3.
  destruct (paginate_chapter t) as [|p0 [|p1 [|p2 [|p3 ps]]]] eqn:E;
    simpl in Hn3; try lia.
  rewrite <- E in Hpages.
  assert (forall k p, paginate_chapter t !! k = Some p ->
            len p = Z.min 2000 (4001 - Z.of_nat k * 2000)) as Hl.
  { intros k p [Hp _]%paginate_chapter_page_len. by rewrite Hp, H4001. }
  rewrite E in Hl.
  rewrite !fmap_cons, (Hl 0%nat p0), (Hl 1%nat p1), (Hl 2%nat p2); done.
Qed.

(** C7.  An invalid navigation request is a silent no-op: a chapter index
    outside the chapter list, a next page on the last page and a previous
    page on the first page all return normally and leave the whole reader,
    progress table included, as it was. *)
Theorem invalid_navigation_noop (s : reader) (i : Z) :
  (i < 0 \/ len (chapters s) <= i -> load_chapter i s = (Return tt, s)) /\
  (current_page s = len (pages s) - 1 -> next_page s = (Return tt, s)) /\
  (current_page s = 0 -> prev_page s = (Return tt, s)).
Proof.
  split; [|split].
  - intros Hi. apply load_chapter_ignored. tauto.
  - intros Hp. unfold next_page. run. rewrite Hp, Z.ltb_irrefl.
    by rewrite andb_false_r.
  - intros Hp. unfold prev_page. run. rewrite Hp. simpl.
    by rewrite andb_false_r.
Qed.





(** C10.  A put for one path leaves the answer of get for every other path
    as it was, whether that path has a record or not. *)
Theorem save_progress_frame (s : reader) (path path' : string) (c p : Z) :
  path' <> path -> available s ->
  exists s1 v,
    save_progress path c p s = (Return tt, s1) /\
    load_progress (Some path') s = (Return v, s) /\
    load_progress (Some path') s1 = (Return v, s1) /\
    select (Some path') (progress (db s1)) = select (Some path') (progress (db s)).
Proof.
  intros Hne Ha. eexists _, _. split; [by apply save_progress_available|].
  split; [by apply load_progress_available|].
  rewrite load_progress_available by done. simpl.
  by rewrite select_upsert_ne.
Qed.

(** C8, as stated, fails on the order: the chapters follow the order in
    which the items are listed, not the reading order of the spine, which
    the code never reads.  With the two sections listed in reverse of the
    spine, chapter 0 is the section the spine puts second. *)
Lemma chapters_not_in_spine_order :
  let s' := snd (load_epub plain_text "/book.epub"
                   (Some (get_items shuffled_package))
                   (init (Database [] []))) in
  surviving plain_text (spine_items shuffled_package)
  = [list_ascii_of_string "One"; list_ascii_of_string "Two"] /\
  chapters s'
  = [list_ascii_of_string "Two"; list_ascii_of_string "One"] /\
  chapters s' <> surviving plain_text (spine_items shuffled_package).
Proof.
  split; [reflexivity|]. split; [vm_compute; reflexivity|].
  vm_compute. intros H. discriminate H.
Qed.

(** C8, amended.  Whatever the book, the chapter list left by opening it
    is the cover marker, when a cover was resolved, followed by exactly
    the sections with text, in the order in which [book.get_items()]
    yields them, whatever the spine says: the text
    chapters sit at consecutive indices from the first text index on,
    every index below the chapter count holds a chapter with content, and
    the labels of the picker number them without a gap. *)
Theorem chapters_dense (get_text : bytes -> text) (s : reader)
    (path : string) (book : epub_book) :
  let s' := snd (load_epub get_text path (Some book) s) in
  let first := first_text_index book in
  chapters s' = assembled get_text book /\
  surviving get_text book `sublist_of` sections get_text book /\
  (forall t, t ∈ sections get_text book ->
     t ∈ surviving get_text book <-> t <> []) /\
  len (chapters s') = first + len (surviving get_text book) /\
  (first = 1 -> index (chapters s') 0 = Some COVER) /\
  (forall k, index (chapters s') (first + Z.of_nat k)
             = surviving get_text book !! k) /\
  (forall i, 0 <= i < len (chapters s') ->
     exists t, index (chapters s') i = Some t /\ t <> []) /\
  items (chapter_list s') = assembled_labels get_text book.
Proof.
  intros s' first.
  assert (chapters s' = assembled get_text book) as Hch.
  { unfold s'. rewrite load_epub_assembles.
    by rewrite (preserves_restore_progress chapters untouched_chapters). }
  assert (len (chapters s') = first + len (surviving get_text book)) as Hlen.
  { rewrite Hch. unfold assembled, first, first_text_index.
    rewrite len_app. by destruct (truthy_bytes _). }
  split; [done|]. split; [apply surviving_sublist|].
  split.
  { intros t Ht. split; [apply surviving_nonempty|].
    intros Hne. unfold surviving. rewrite list_elem_of_In, filter_In.
    rewrite <- list_elem_of_In. split; [done|]. by destruct t. }
  split; [done|]. split.
  { intros Hf. rewrite Hch. unfold assembled, first, first_text_index in *.
    by destruct (truthy_bytes _). }
  split.
  { intros k. rewrite Hch.
    unfold assembled, first, first_text_index.
    pose proof (len_nonneg (surviving get_text book)).
    destruct (surviving get_text book !! k) as [t|] eqn:Ek.
    - apply lookup_lt_Some in Ek as Hk.
      rewrite index_lookup.
      2:{ rewrite len_app. unfold len in *. destruct (truthy_bytes _); simpl; lia. }
      destruct (truthy_bytes _); simpl.
      + replace (Z.to_nat (1 + Z.of_nat k)) with (S k) by lia. done.
      + replace (Z.to_nat (0 + Z.of_nat k)) with k by lia. done.
    - apply lookup_ge_None in Ek. unfold index.
      rewrite len_app.
      destruct (truthy_bytes _); simpl.
      + change (len [COVER]) with 1.
        destruct (Z.ltb_spec (1 + Z.of_nat k) (1 + len (surviving get_text book)));
          [unfold len in *; lia|].
        rewrite andb_false_r.
        destruct (Z.ltb_spec (1 + Z.of_nat k) 0); [lia|]. by rewrite andb_false_r.
      + change (len []) with 0.
        destruct (Z.ltb_spec (0 + Z.of_nat k) (0 + len (surviving get_text book)));
          [unfold len in *; lia|].
        rewrite andb_false_r.
        destruct (Z.ltb_spec (0 + Z.of_nat k) 0); [lia|]. by rewrite andb_false_r. }
  split.
  { intros i Hi. rewrite index_lookup by done.
    destruct (lookup_lt_is_Some_2 (chapters s') (Z.to_nat i)) as [t Ht].
    { unfold len in Hi. lia. }
    exists t. split; [done|]. apply (assembled_nonempty get_text book).
    rewrite <- Hch. by eapply list_elem_of_lookup_2. }
  unfold s'. rewrite load_epub_assembles.
  by rewrite (preserves_restore_progress (fun s => items (chapter_list s))
                untouched_items).
Qed.

(** C8, on the scenario of the specification: two sections without text
    between two with text, behind a cover. *)
Example chapters_dense_scenario :
  let s' := snd (load_epub plain_text "/book.epub" (Some covered_book)
                   (init (Database [] []))) in
  chapters s' = [COVER; list_ascii_of_string "One"; list_ascii_of_string "Two"] /\
  items (chapter_list s') = ["Cover Page"; "Chapter 1"; "Chapter 2"]%string.
Proof. vm_compute. done. Qed.

(** C2, as stated, fails: a record whose chapter index lies outside the
    chapter list of the book now at that path is restored as it is.  The
    book has one chapter and the record says chapter 5: opening returns
    normally with chapter index 5 and page index -1. *)
Lemma open_keeps_chapter_out_of_range :
  let s' := snd (load_epub plain_text "/short.epub" (Some [document "One"])
                   (init (Database [Row "/short.epub" 5 0] []))) in
  fst (load_epub plain_text "/short.epub" (Some [document "One"])
         (init (Database [Row "/short.epub" 5 0] []))) = Return tt /\
  len (chapters s') = 1 /\ current_chapter s' = 5 /\
  ~ (0 <= current_chapter s' < len (chapters s')) /\
  ~ (0 <= current_page s' < pageCount s').
Proof. vm_compute. repeat split; try done; intros [? ?]; done. Qed.

(** Such a record needs no outside hand: it is left behind when a longer
    book is read up to its last chapter and a shorter one then takes its
    place at the same path.  The page then shown is still one of the
    former book. *)
Example stale_record_reached :
  let s1 := snd (load_epub plain_text "/book.epub" (Some covered_book)
                   (init (Database [] []))) in
  let s2 := snd (load_chapter 2 s1) in
  let s3 := snd (load_epub plain_text "/book.epub" (Some [document "One"])
                   s2) in
  select (Some "/book.epub"%string) (progress (db s2)) = Some (2, 0) /\
  len (chapters s3) = 1 /\ current_chapter s3 = 2 /\
  text_view s3 = PageHtml (list_ascii_of_string "Two") 1 1.
Proof. vm_compute. done. Qed.

(** C2, amended.  When the stored chapter index is within the chapter
    list, names a text chapter, and the stored page index is not negative,
    opening the book returns normally on that chapter with the page index
    cut down to the last page of the chapter: both indices are then in
    range, a page is displayed, and the record is rewritten with the
    position landed on. *)
Theorem open_restores_within_range (get_text : bytes -> text) (s : reader)
    (path : string) (book : epub_book) (c p : Z) (ch : text) :
  path <> ""%string -> available s ->
  default (0, 0) (select (Some path) (progress (db s))) = (c, p) ->
  0 <= c < len (assembled get_text book) ->
  assembled get_text book !! Z.to_nat c = Some ch ->
  bool_decide (ch = COVER) && truthy_bytes (resolved_cover book) = false ->
  0 <= p ->
  exists s',
    load_epub get_text path (Some book) s = (Return tt, s') /\
    chapters s' = assembled get_text book /\
    pages s' = paginate_chapter ch /\
    current_chapter s' = c /\
    current_page s' = Z.min p (pageCount s' - 1) /\
    0 <= current_chapter s' < len (chapters s') /\
    0 <= current_page s' < pageCount s' /\
    state_of s' = PageDisplayed /\
    select (Some path) (progress (db s')) = Some (c, current_page s').
Proof.
  intros Hne Ha Hsel Hc Hch Hcov Hp.
  assert (ch <> []) as Hnil.
  { apply (assembled_nonempty get_text book). by eapply list_elem_of_lookup_2. }
  destruct (paginate_chapter_nonempty ch Hnil) as (p0 & _ & Hlen).
  rewrite load_epub_assembles.
  edestruct (restore_progress_text (assembled_reader get_text path book s)
               path c p ch) as (t & row & Ht & Hrun); try done.
  rewrite Hrun. eexists. split; [done|]. unfold pageCount. simpl.
  rewrite select_upsert_eq. repeat split; try done; lia.
Qed.

Lemma open_restores_within_range_witness :
  exists s',
    load_epub plain_text "/book.epub" (Some covered_book)
      (init (Database [Row "/book.epub" 2 7] [])) = (Return tt, s') /\
    current_chapter s' = 2 /\ current_page s' = 0 /\ pageCount s' = 1.
Proof.
  assert ("/book.epub"%string <> ""%string) as Hpath by done.
  assert (0 <= 2 < len (assembled plain_text covered_book)) as Hc2
    by (vm_compute; split; congruence).
  destruct (open_restores_within_range plain_text
              (init (Database [Row "/book.epub" 2 7] []))
              "/book.epub" covered_book 2 7 (list_ascii_of_string "Two")
              Hpath eq_refl eq_refl Hc2 eq_refl eq_refl ltac:(lia))
    as (s' & Hrun & _ & Hpages & Hc & Hp & _).
  exists s'. unfold pageCount in *. rewrite Hpages in *.
  split; [exact Hrun|]. split; [exact Hc|]. split; [exact Hp|reflexivity].
Defined.

(** C3.  A book with a cover and no stored progress is opened on the
    cover: the cover is chapter 0, the text chapters follow from index 1,
    the cover is displayed and there are no pages; but the page index left
    by [load_epub] is -1, not the 0 that [load_chapter] had just set. *)
Theorem open_on_cover_page_index :
  let r := load_epub plain_text "/book.epub" (Some covered_book)
             (init (Database [] [])) in
  fst r = Return tt /\
  index (chapters (snd r)) 0 = Some COVER /\
  index (chapters (snd r)) 1 = Some (list_ascii_of_string "One") /\
  current_chapter (snd r) = 0 /\
  state_of (snd r) = CoverDisplayed /\
  pageCount (snd r) = 0 /\
  current_page (snd r) = -1 /\
  snd (load_chapter 0 (snd r)) = set_current_page 0 (snd r).
Proof. vm_compute. done. Qed.

(** The same in general: whenever opening lands on a resolved cover, the
    page index ends at the smaller of the stored page index and -1. *)
Lemma open_on_cover (get_text : bytes -> text) (s : reader)
    (path : string) (book : epub_book) (p : Z) (image : bytes) :
  path <> ""%string -> available s ->
  default (0, 0) (select (Some path) (progress (db s))) = (0, p) ->
  resolved_cover book = Some image -> image <> [] ->
  exists s',
    load_epub get_text path (Some book) s = (Return tt, s') /\
    index (chapters s') 0 = Some COVER /\
    current_chapter s' = 0 /\
    state_of s' = CoverDisplayed /\
    pageCount s' = 0 /\
    current_page s' = Z.min p (-1).
Proof.
  intros Hne Ha Hsel Hcov Hnil.
  assert (assembled get_text book = COVER :: surviving get_text book) as Hch.
  { unfold assembled. rewrite Hcov. by destruct image. }
  rewrite load_epub_assembles.
  edestruct (restore_progress_cover (assembled_reader get_text path book s)
               path 0 p image) as (row & Hrun); try done.
  - simpl. rewrite Hch. unfold len. simpl length. lia.
  - simpl. by rewrite Hch.
  - rewrite Hrun. eexists. split; [done|]. simpl. by rewrite Hch.
Qed.

(** C4, as stated, fails: a readable archive in which no section has text
    and no cover is found is opened without any error. *)
Lemma open_blank_book_no_error :
  surviving plain_text blank_book = [] /\
  resolved_cover blank_book = None /\
  exists s',
    load_epub plain_text "/blank.epub" (Some blank_book)
      (init (Database [] [])) = (Return tt, s') /\
    chapters s' = [] /\ current_book s' = Some "/blank.epub"%string.
Proof.
  split; [reflexivity|]. split; [reflexivity|].
  eexists. split; [vm_compute; reflexivity|]. split; reflexivity.
Qed.

(** C4, amended.  An archive that cannot be read makes [load_epub] raise
    to its caller, with the chapters, pages, chapter and page indices,
    cover, chapter picker, displayed document and progress table as they
    were.  A readable archive without any text section and without a cover
    is no error: on an available store, and with no pages held, opening it
    returns normally with an empty chapter list and the display as it
    was. *)
Theorem open_failure (get_text : bytes -> text) (s : reader)
    (path : string) :
  let r := load_epub get_text path None s in
  (fst r = Raise EpubException /\
   chapters (snd r) = chapters s /\ pages (snd r) = pages s /\
   current_chapter (snd r) = current_chapter s /\
   current_page (snd r) = current_page s /\
   cover_data (snd r) = cover_data s /\
   chapter_list (snd r) = chapter_list s /\
   text_view (snd r) = text_view s /\
   state_of (snd r) = state_of s /\
   db (snd r) = db s) /\
  forall book,
    surviving get_text book = [] -> resolved_cover book = None ->
    available s -> pages s = [] ->
    exists s',
      load_epub get_text path (Some book) s = (Return tt, s') /\
      chapters s' = [] /\ pages s' = [] /\
      text_view s' = text_view s /\ state_of s' = state_of s.
Proof.
  split; [by rewrite load_epub_unreadable|].
  intros book Hsur Hcov Ha Hp.
  rewrite load_epub_assembles.
  assert (chapters (assembled_reader get_text path book s) = []) as Hch.
  { simpl. unfold assembled. by rewrite Hsur, Hcov. }
  destruct (default (0, 0)
              (select (current_book (assembled_reader get_text path book s))
                 (progress (db (assembled_reader get_text path book s)))))
    as [c p] eqn:Hsel.
  destruct (restore_progress_out_of_range
              (assembled_reader get_text path book s) c p) as [row Hrun];
    try done.
  { rewrite Hch. change (len []) with 0. lia. }
  rewrite Hrun. eexists. split; [done|]. simpl in *.
  split; [exact Hch|]. split; [exact Hp|]. split; reflexivity.
Qed.

Lemma open_failure_witness :
  exists s',
    load_epub plain_text "/blank.epub" (Some blank_book)
      (init (Database [] [])) = (Return tt, s') /\
    chapters s' = [] /\ state_of s' = NoBookLoaded.
Proof.
  destruct (proj2 (open_failure plain_text (init (Database [] []))
                     "/blank.epub") blank_book eq_refl eq_refl eq_refl eq_refl)
    as (s' & Hrun & Hch & _ & _ & Hst).
  exists s'. split; [exact Hrun|]. split; [exact Hch|exact Hst].
Defined.

(** C1, as stated, fails: nothing catches a failure of the storage layer.
    With the store failing, turning the page, selecting a chapter,
    reading the progress and opening a book all raise the error; reading
    the progress does not answer (0, 0). *)
Lemma storage_failure_is_raised :
  fst (next_page outage_session) = Raise OperationalError /\
  fst (load_chapter 0 outage_session) = Raise OperationalError /\
  fst (load_progress (Some "/long.epub"%string) outage_session)
    = Raise OperationalError /\
  fst (load_progress (Some "/long.epub"%string) outage_session)
    <> Return (0, 0) /\
  fst (load_epub plain_text "/long.epub" (Some long_book) outage_session)
    = Raise OperationalError.
Proof. vm_compute. repeat split; done. Qed.

(** C1, amended.  A failure of the storage layer during a get or a put is
    raised to the caller of the navigation operation that made the call.
    Selecting a chapter raises before anything in memory has changed;
    turning a page raises after the page index and the displayed page have
    been set, and these stay as set; reading the progress, or opening a
    book, raises instead of answering (0, 0).  No operation returns
    normally after a storage call of its own has failed. *)
Theorem storage_failure_propagates (s : reader) (book : string)
    (rest : list bool) :
  outages (db s) = true :: rest ->
  current_book s = Some book -> book <> ""%string ->
  suppress_load s = false ->
  let failed := set_db (Database (progress (db s)) rest) s in
  (forall path, load_progress path s = (Raise OperationalError, failed)) /\
  (forall c p, save_progress book c p s = (Raise OperationalError, failed)) /\
  (forall i, 0 <= i < len (chapters s) ->
     load_chapter i s = (Raise OperationalError, failed)) /\
  (forall t, index (pages s) (current_page s + 1) = Some t ->
     current_page s < len (pages s) - 1 ->
     next_page s =
       (Raise OperationalError,
        set_text_view
          (PageHtml (replace_newlines t) (current_page s + 1 + 1)
             (len (pages s)))
          (set_current_page (current_page s + 1) failed))) /\
  (forall t, index (pages s) (current_page s - 1) = Some t ->
     0 < current_page s ->
     prev_page s =
       (Raise OperationalError,
        set_text_view
          (PageHtml (replace_newlines t) (current_page s - 1 + 1)
             (len (pages s)))
          (set_current_page (current_page s - 1) failed))) /\
  (forall get_text path archive,
     fst (load_epub get_text path (Some archive) s) = Raise OperationalError) /\
  (forall i, swallows_no_outage (load_chapter i)) /\
  swallows_no_outage next_page /\ swallows_no_outage prev_page /\
  (forall get_text path archive,
     swallows_no_outage (load_epub get_text path archive)).
Proof.
  intros Ho Hb Hne Hs failed.
  split. { intros path. unfold load_progress. by apply sqlite_outage. }
  split. { intros c p. unfold save_progress. by apply sqlite_outage. }
  split. { intros i Hi. by eapply load_chapter_outage. }
  split.
  { intros t Ht Hlt. unfold next_page. run.
    rewrite (index_Some_truthy _ _ _ Ht). simpl.
    destruct (Z.ltb_spec (current_page s) (len (pages s) - 1)); [|lia].
    by erewrite display_page_outage. }
  split.
  { intros t Ht Hlt. unfold prev_page. run.
    rewrite (index_Some_truthy _ _ _ Ht). simpl.
    destruct (Z.ltb_spec 0 (current_page s)); [|lia].
    by erewrite display_page_outage. }
  split.
  { intros get_text path archive. rewrite load_epub_assembles.
    by erewrite restore_progress_outage. }
  split; [apply swallows_load_chapter|].
  split; [apply swallows_next_page|].
  split; [apply swallows_prev_page|apply swallows_load_epub].
Qed.

Lemma storage_failure_propagates_witness :
  load_chapter 0 outage_session
  = (Raise OperationalError,
     set_db (Database (progress (db outage_session)) []) outage_session).
Proof.
  assert (outages (db outage_session) = [true]) as Ho by (vm_compute; reflexivity).
  assert (current_book outage_session = Some "/long.epub"%string) as Hb
    by (vm_compute; reflexivity).
  assert ("/long.epub"%string <> ""%string) as Hne by done.
  assert (suppress_load outage_session = false) as Hs by (vm_compute; reflexivity).
  assert (0 <= 0 < len (chapters outage_session)) as Hi
    by (vm_compute; split; congruence).
  exact (proj1 (proj2 (proj2 (storage_failure_propagates outage_session
                                "/long.epub" [] Ho Hb Hne Hs))) 0 Hi).
Defined.

(** ** The claims on sample inputs *)

Lemma paginate_chapter_roundtrip_witness :
  concat (paginate_chapter (list_ascii_of_string "One"))
  = list_ascii_of_string "One" /\
  list_ascii_of_string "One"
  = take 3 (drop 0 (list_ascii_of_string "One")).
Proof.
  destruct (paginate_chapter_roundtrip (list_ascii_of_string "One"))
    as [Hc Hp].
  split; [exact Hc|].
  exact (Hp 0%nat (list_ascii_of_string "One") eq_refl).
Defined.

Lemma paginate_chapter_count_and_sizes_witness :
  len <$> paginate_chapter (repeat "a"%char 4001) = [2000; 2000; 1].
Proof.
  assert (len (repeat "a"%char 4001) = 4001) as H by (vm_compute; reflexivity).
  exact (proj2 (proj2 (proj2 (proj2 (proj2
           (paginate_chapter_count_and_sizes (repeat "a"%char 4001)))))) H).
Defined.

Lemma invalid_navigation_noop_witness :
  load_chapter 9 reading_session = (Return tt, reading_session) /\
  next_page reading_session = (Return tt, reading_session) /\
  prev_page reading_session = (Return tt, reading_session).
Proof.
  destruct (invalid_navigation_noop reading_session 9) as (Hc & Hn & Hp).
  split; [|split].
  - apply Hc. right. vm_compute. congruence.
  - apply Hn. vm_compute. reflexivity.
  - apply Hp. vm_compute. reflexivity.
Defined.

Lemma chapters_dense_witness :
  index (chapters (snd (load_epub plain_text "/book.epub" (Some covered_book)
                          (init (Database [] []))))) 0
  = Some COVER.
Proof.
  assert (first_text_index covered_book = 1) as H by (vm_compute; reflexivity).
  exact (proj1 (proj2 (proj2 (proj2 (proj2
           (chapters_dense plain_text (init (Database [] [])) "/book.epub"
              covered_book))))) H).
Defined.

Lemma save_progress_frame_witness :
  exists s1 v,
    save_progress "/book.epub" 2 3
      (init (Database [Row "/other.epub" 4 1] [])) = (Return tt, s1) /\
    load_progress (Some "/other.epub"%string)
      (init (Database [Row "/other.epub" 4 1] [])) =
      (Return v, init (Database [Row "/other.epub" 4 1] [])) /\
    load_progress (Some "/other.epub"%string) s1 = (Return v, s1).
Proof.
  assert ("/other.epub"%string <> "/book.epub"%string) as Hne by done.
  destruct (save_progress_frame (init (Database [Row "/other.epub" 4 1] []))
              "/book.epub" "/other.epub" 2 3 Hne eq_refl)
    as (s1 & v & Hput & Hbefore & Hafter & _).
  exists s1, v. split; [exact Hput|]. split; [exact Hbefore|exact Hafter].
Defined.

(** * Further properties *)

(** ** Reasoning backwards through a method *)

Section Wp.
Context {A : Type}.
Implicit Types Q : outcome A -> reader -> Prop.

Lemma wp_ret (a : A) Q s : Q (Return a) s -> wp (mret a) Q s.
Proof. done. Qed.

Lemma wp_raise e Q s : Q (Raise e) s -> wp (raise e) Q s.
Proof. done. Qed.

Lemma wp_mono (m : M A) Q Q' s :
  wp m Q s -> (forall o s', Q o s' -> Q' o s') -> wp m Q' s.
Proof. unfold wp. auto. Qed.

Lemma wp_bind {B} (m : M B) (k : B -> M A) Q s :
  wp m (fun o s1 => match o with
                    | Return b => wp (k b) Q s1
                    | Raise e => Q (Raise e) s1
                    end) s ->
  wp (m ≫= k) Q s.
Proof.
  unfold wp, mbind, M_bind. by destruct (m s) as [[b|e] s1].
Qed.

Lemma wp_sqlite (stmt : table -> A * table) Q s :
  (forall rest, outages (db s) = true :: rest ->
     Q (Raise OperationalError) (set_db (Database (progress (db s)) rest) s)) ->
  (forall rest, outages (db s) = [] /\ rest = [] \/ outages (db s) = false :: rest ->
     Q (Return (fst (stmt (progress (db s)))))
       (set_db (Database (snd (stmt (progress (db s)))) rest) s)) ->
  wp (sqlite stmt) Q s.
Proof.
  intros Hfail Hok. unfold wp, sqlite. run.
  destruct (outages (db s)) as [|[] rest] eqn:E.
  - specialize (Hok [] (or_introl (conj eq_refl eq_refl))).
    by destruct (stmt (progress (db s))).
  - by apply Hfail.
  - specialize (Hok rest (or_intror eq_refl)).
    by destruct (stmt (progress (db s))).
Qed.

Lemma wp_subscript (l : list A) i Q s :
  (forall x, index l i = Some x -> Q (Return x) s) ->
  (index l i = None -> Q (Raise IndexError) s) ->
  wp (subscript l i) Q s.
Proof.
  intros Hx Hn. unfold wp, subscript. destruct (index l i); [by apply Hx|by apply Hn].
Qed.
End Wp.

Lemma wp_self Q s : Q (Return s) s -> wp self Q s.
Proof. done. Qed.

Lemma wp_assign g Q s : Q (Return tt) (g s) -> wp (assign g) Q s.
Proof. done. Qed.

Ltac wp_step :=
  cbn beta iota;
  lazymatch goal with
  | |- wp (mbind _ _) _ _ => apply wp_bind
  | |- wp self _ _ => apply wp_self
  | |- wp (assign _) _ _ => apply wp_assign
  | |- wp (mret _) _ _ => apply wp_ret
  | |- wp (raise _) _ _ => apply wp_raise
  end;
  cbn beta iota.

Ltac wp_steps := repeat wp_step.

(** ** With the store available nothing is raised but a read error *)

Lemma wp_save_available path c p (Q : outcome unit -> reader -> Prop) s :
  available s ->
  Q (Return tt) (set_db (Database (upsert path c p (progress (db s))) []) s) ->
  wp (save_progress path c p) Q s.
Proof. intros Ha HQ. unfold wp. by rewrite save_progress_available. Qed.

Lemma wp_load_available path (Q : outcome (Z * Z) -> reader -> Prop) s :
  available s ->
  Q (Return (default (0, 0) (select path (progress (db s))))) s ->
  wp (load_progress path) Q s.
Proof. intros Ha HQ. unfold wp. by rewrite load_progress_available. Qed.

Lemma upsert_cons path c p r t :
  upsert path c p (r :: t) =
  if String.eqb (book_path r) path then Row path c p :: t
  else r :: upsert path c p t.
Proof. done. Qed.

Lemma select_cons k r t :
  select (Some k) (r :: t) =
  if String.eqb (book_path r) k then Some (chapter r, page r)
  else select (Some k) t.
Proof. unfold select. simpl. by destruct (String.eqb (book_path r) k). Qed.

Lemma upsert_pages_nonneg path c p t :
  0 <= p -> stored_pages_nonneg t -> stored_pages_nonneg (upsert path c p t).
Proof.
  intros Hp. unfold stored_pages_nonneg. induction 1 as [|r t Hr Ht IH].
  - by repeat constructor.
  - rewrite upsert_cons. destruct (String.eqb (book_path r) path); by constructor.
Qed.

Lemma select_page_nonneg path t :
  stored_pages_nonneg t -> 0 <= snd (default (0, 0) (select path t)).
Proof.
  unfold stored_pages_nonneg. intros Ht. destruct path as [k|]; [|done].
  induction Ht as [|r t Hr Ht IH]; [done|].
  rewrite select_cons. by destruct (String.eqb (book_path r) k).
Qed.

Lemma truthy_list_len_pos {A} (l : list A) :
  truthy_list l = true <-> 0 < len l.
Proof. unfold len. destruct l; simpl; [split; [done|lia]|split; [lia|done]]. Qed.

Lemma truthy_index {A} (l : list A) i :
  truthy_list l = true -> 0 <= i < len l -> is_Some (index l i).
Proof.
  intros _ Hi. rewrite index_lookup by done. apply lookup_lt_is_Some.
  unfold len in Hi. lia.
Qed.

Lemma display_page_carries_on s :
  available s -> stored_pages_nonneg (progress (db s)) -> page_in_range s ->
  wp display_page (carries_on s) s.
Proof.
  intros Ha Hn Hr. unfold display_page, carries_on. wp_steps.
  destruct (truthy_list (pages s)) eqn:Ep; [|by wp_steps].
  specialize (Hr Ep).
  destruct (truthy_index (pages s) (current_page s) Ep Hr) as [x Hx].
  wp_step. apply wp_subscript; [intros y _|congruence].
  wp_steps.
  destruct (current_book s) as [book|]; [|by wp_steps].
  destruct (truthy_str (Some book)); [|by wp_steps].
  apply wp_save_available; [done|].
  split; [done|]. split; [done|].
  split; [apply upsert_pages_nonneg; [lia|done] | intros H; exact H].
Qed.

Lemma load_chapter_carries_on s i :
  available s -> stored_pages_nonneg (progress (db s)) ->
  wp (load_chapter i) (carries_on s) s.
Proof.
  intros Ha Hn. unfold load_chapter, carries_on. wp_steps.
  destruct (suppress_load s); [by wp_steps|].
  destruct ((i <? 0) || (len (chapters s) <=? i)) eqn:Ei; [by wp_steps|].
  apply orb_false_elim in Ei as [Hi0%Z.ltb_ge Hi1%Z.leb_gt].
  wp_step.
  set (mid := fun (o : outcome unit) (s1 : reader) =>
     o = Return tt /\ available s1 /\ stored_pages_nonneg (progress (db s1)) /\
     chapters s1 = chapters s /\ cover_data s1 = cover_data s).
  apply (wp_mono _ mid).
  { destruct (current_book s) as [book|]; [|by wp_steps].
    destruct (truthy_str (Some book)); [|by wp_steps].
    apply wp_save_available; [done|]. unfold mid.
    split; [done|]. split; [done|].
    split; [by apply upsert_pages_nonneg | done]. }
  intros o s1 (-> & Ha1 & Hn1 & Hch & Hcov).
  wp_step. apply wp_subscript.
  2:{ rewrite index_lookup by lia. intros Hnone.
      apply lookup_ge_None in Hnone. unfold len in *. lia. }
  intros ch Hch1.
  destruct (bool_decide (ch = COVER) && truthy_bytes (cover_data s)).
  { wp_steps. split; [done|]. split; [done|]. split; [done|].
    intros _ Hp. simpl in Hp. done. }
  wp_steps. apply wp_load_available; [done|]. simpl.
  pose proof (select_page_nonneg (current_book s) _ Hn1) as Hsaved.
  destruct (default (0, 0) (select (current_book s) (progress (db s1))))
    as [c0 saved]. simpl in Hsaved.
  wp_steps.
  eapply wp_mono; [apply display_page_carries_on; try done|].
  - intros Hp. simpl in *. rewrite truthy_list_len_pos in Hp. lia.
  - unfold carries_on. intros o s' (-> & ? & ? & Hr).
    split; [done|]. split; [done|]. split; [done|]. intros _. apply Hr.
    intros Hp. simpl in *. rewrite truthy_list_len_pos in Hp. lia.
Qed.

Lemma carries_on_refl s :
  available s -> stored_pages_nonneg (progress (db s)) ->
  carries_on s (Return tt) s.
Proof. intros Ha Hn. split; [done|]. split; [done|]. split; [done|]. tauto. Qed.

Lemma next_page_carries_on s :
  available s -> stored_pages_nonneg (progress (db s)) -> page_in_range s ->
  wp next_page (carries_on s) s.
Proof.
  intros Ha Hn Hr. unfold next_page. wp_steps.
  destruct (truthy_list (pages s) && (current_page s <? len (pages s) - 1))
    eqn:E; [|wp_steps; by apply carries_on_refl].
  apply andb_prop in E as [Ep Hlt%Z.ltb_lt]. specialize (Hr Ep).
  wp_steps.
  eapply wp_mono; [apply display_page_carries_on; try done|].
  - intros _. simpl. lia.
  - unfold carries_on. intros o s' (-> & ? & ? & Hr').
    split; [done|]. split; [done|]. split; [done|]. intros _. apply Hr'.
    intros _. simpl. lia.
Qed.

Lemma prev_page_carries_on s :
  available s -> stored_pages_nonneg (progress (db s)) -> page_in_range s ->
  wp prev_page (carries_on s) s.
Proof.
  intros Ha Hn Hr. unfold prev_page. wp_steps.
  destruct (truthy_list (pages s) && (0 <? current_page s))
    eqn:E; [|wp_steps; by apply carries_on_refl].
  apply andb_prop in E as [Ep Hlt%Z.ltb_lt]. specialize (Hr Ep).
  wp_steps.
  eapply wp_mono; [apply display_page_carries_on; try done|].
  - intros _. simpl. lia.
  - unfold carries_on. intros o s' (-> & ? & ? & Hr').
    split; [done|]. split; [done|]. split; [done|]. intros _. apply Hr'.
    intros _. simpl. lia.
Qed.

Lemma carries_on_widget w s o s' :
  carries_on (set_chapter_list w s) o s' -> carries_on s o s'.
Proof. intros H. exact H. Qed.

Lemma setCurrentRow_carries_on s r :
  available s -> stored_pages_nonneg (progress (db s)) ->
  wp (chapter_list_setCurrentRow r) (carries_on s) s.
Proof.
  intros Ha Hn. unfold chapter_list_setCurrentRow. wp_steps.
  unfold emit_currentRowChanged.
  destruct (_ =? _).
  - wp_steps. eapply carries_on_widget. by apply carries_on_refl.
  - eapply wp_mono; [by apply load_chapter_carries_on|].
    intros o s' H. by eapply carries_on_widget.
Qed.

Lemma restore_progress_carries_on s :
  available s -> stored_pages_nonneg (progress (db s)) ->
  wp restore_progress
    (fun o s' => o = Return tt /\ available s' /\
                 stored_pages_nonneg (progress (db s')) /\ page_in_range s') s.
Proof.
  intros Ha Hn. unfold restore_progress. wp_steps.
  apply wp_load_available; [done|].
  pose proof (select_page_nonneg (current_book s) _ Hn) as Hp.
  destruct (default (0, 0) (select (current_book s) (progress (db s))))
    as [c p]. simpl in Hp.
  wp_steps.
  eapply wp_mono; [by apply setCurrentRow_carries_on|].
  intros o s1 (-> & Ha1 & Hn1 & _). wp_steps.
  eapply wp_mono; [by apply load_chapter_carries_on|].
  intros o s2 (-> & Ha2 & Hn2 & _). wp_steps.
  eapply wp_mono; [apply display_page_carries_on; try done|].
  - intros Hne. simpl in *. rewrite truthy_list_len_pos in Hne. lia.
  - intros o s' (-> & ? & ? & Hr').
    split; [done|]. split; [done|]. split; [done|]. apply Hr'.
    intros Hne. simpl in *. rewrite truthy_list_len_pos in Hne. lia.
Qed.

Lemma load_epub_carries_on get_text path archive s :
  available s -> stored_pages_nonneg (progress (db s)) ->
  wp (load_epub get_text path archive)
    (fun o s' => (o = Return tt \/ o = Raise EpubException) /\ available s' /\
                 stored_pages_nonneg (progress (db s')) /\
                 (page_in_range s -> page_in_range s')) s.
Proof.
  intros Ha Hn. destruct archive as [book|].
  - unfold wp. rewrite load_epub_assembles.
    destruct (restore_progress_carries_on
                (assembled_reader get_text path book s) Ha Hn)
      as (Ho & ? & ? & ?).
    rewrite Ho. split; [by left|]. split; [done|]. split; [done|]. done.
  - unfold wp. rewrite load_epub_unreadable. simpl.
    split; [by right|]. split; [done|]. split; [done|]. intros H; exact H.
Qed.

Lemma handle_carries_on get_text e s :
  available s -> consistent s ->
  wp (handle get_text e)
    (fun o s' => (o = Return tt \/ o = Raise EpubException) /\
                 available s' /\ consistent s') s.
Proof.
  intros Ha [Hr Hn].
  assert (forall m, wp m (carries_on s) s ->
            wp m (fun o s' => (o = Return tt \/ o = Raise EpubException) /\
                              available s' /\ consistent s') s) as Hweak.
  { intros m Hm. apply (wp_mono _ _ _ _ Hm).
    intros o s' (-> & ? & ? & Hr'). split; [by left|]. split; [done|].
    split; [by apply Hr'|done]. }
  destruct e as [choice archive|row| |]; simpl.
  - unfold open_epub. destruct (truthy_str (Some choice)).
    + eapply wp_mono; [by apply load_epub_carries_on|].
      intros o s' (Ho & ? & ? & Hr'). split; [done|]. split; [done|].
      split; [by apply Hr'|done].
    + apply wp_ret. split; [by left|]. split; [done|]. by split.
  - by apply Hweak, setCurrentRow_carries_on.
  - by apply Hweak, prev_page_carries_on.
  - by apply Hweak, next_page_carries_on.
Qed.

(** X1.  On an available store, from a reader whose page index addresses a
    held page and whose records hold no negative page, no sequence of
    events raises anything but the read error of an unreadable archive,
    and the reader stays so. *)
Theorem events_raise_no_index_error (get_text : bytes -> text)
    (es : list event) (s : reader) :
  available s -> consistent s ->
  let r := handle_all get_text es s in
  (fst r = Return tt \/ fst r = Raise EpubException) /\
  available (snd r) /\ consistent (snd r).
Proof.
  revert s. induction es as [|e es IH]; intros s Ha Hc; [by split; [left|]|].
  cbn [handle_all]. apply (wp_bind (handle get_text e)).
  eapply wp_mono; [by apply handle_carries_on|].
  intros o s' ([-> | ->] & Ha' & Hc'); cbn beta iota.
  - by apply IH.
  - split; [by right|done].
Qed.

Lemma init_consistent d :
  stored_pages_nonneg (progress d) -> consistent (init d).
Proof. intros Hn. split; [|done]. by intros H. Qed.

(** ** Which records a slot writes *)

Lemma written_for_trans book t1 t2 t3 :
  written_for book t1 t2 -> written_for book t2 t3 -> written_for book t1 t3.
Proof. intros H12 H23. induction H23; [done|by constructor]. Qed.

Lemma written_for_other book path t t' :
  written_for book t t' -> path <> book ->
  select (Some path) t' = select (Some path) t.
Proof.
  intros Hw Hne. induction Hw as [|t' c p _ IH]; [done|].
  by rewrite select_upsert_ne.
Qed.

Lemma written_for_primary_key book t t' :
  written_for book t t' -> primary_key t -> primary_key t'.
Proof.
  intros Hw Hpk. induction Hw; [done|]. by apply upsert_primary_key.
Qed.

Lemma select_upsert_is_Some path k c p t :
  is_Some (select (Some k) t) -> is_Some (select (Some k) (upsert path c p t)).
Proof.
  destruct (decide (k = path)) as [->|Hne].
  - intros _. rewrite select_upsert_eq. by eexists.
  - by rewrite select_upsert_ne.
Qed.

Lemma written_for_keeps book k t t' :
  written_for book t t' ->
  is_Some (select (Some k) t) -> is_Some (select (Some k) t').
Proof.
  intros Hw Hk. induction Hw; [done|]. by apply select_upsert_is_Some.
Qed.

Lemma wp_save_writes book t0 c p s :
  written_for book t0 (progress (db s)) ->
  (forall b, current_book s = Some b -> b = book) ->
  wp (save_progress book c p) (wrote_only book t0) s.
Proof.
  intros Hw Hb. unfold save_progress. apply wp_sqlite; intros rest _.
  - by split.
  - split; [by constructor|done].
Qed.

Lemma wp_load_any path (Q : outcome (Z * Z) -> reader -> Prop) s :
  (forall outs,
     Q (Raise OperationalError) (set_db (Database (progress (db s)) outs) s)) ->
  (forall v outs,
     Q (Return v) (set_db (Database (progress (db s)) outs) s)) ->
  wp (load_progress path) Q s.
Proof.
  intros Hfail Hok. unfold load_progress.
  apply wp_sqlite; intros rest _; [apply Hfail|apply Hok].
Qed.

Lemma display_page_writes book t0 s :
  written_for book t0 (progress (db s)) ->
  (forall b, current_book s = Some b -> b = book) ->
  wp display_page (wrote_only book t0) s.
Proof.
  intros Hw Hb. unfold display_page. wp_steps.
  destruct (truthy_list (pages s)); [|wp_steps; by split].
  wp_step. apply wp_subscript; [intros y _|intros _; by split]. wp_steps.
  remember (current_book s) as cb eqn:Eb in |- *.
  destruct cb as [b|]; [|wp_steps; split; [done|exact Hb]].
  destruct (truthy_str (Some b)); [|wp_steps; split; [done|exact Hb]].
  rewrite (Hb b (eq_sym Eb)). apply wp_save_writes; [done|exact Hb].
Qed.

Lemma load_chapter_writes book t0 s i :
  written_for book t0 (progress (db s)) ->
  (forall b, current_book s = Some b -> b = book) ->
  wp (load_chapter i) (wrote_only book t0) s.
Proof.
  intros Hw Hb. unfold load_chapter. wp_steps.
  destruct (suppress_load s); [wp_steps; by split|].
  destruct ((i <? 0) || (len (chapters s) <=? i)); [wp_steps; by split|].
  wp_step.
  apply (wp_mono _ (fun o s1 =>
           wrote_only book t0 o s1 /\ current_book s1 = current_book s)).
  { remember (current_book s) as cb eqn:Eb in |- *.
    destruct cb as [b|]; [|wp_steps; split; [by split|done]].
    destruct (truthy_str (Some b)); [|wp_steps; split; [by split|done]].
    pose proof (Hb b (eq_sym Eb)) as ->. unfold save_progress.
    apply wp_sqlite; intros rest _.
    - split; [split; [done|exact Hb]|exact (eq_sym Eb)].
    - split; [split; [by constructor|exact Hb]|exact (eq_sym Eb)]. }
  intros [[]|e] s1 [[Hw1 Hb1] Hcb]; [|by split].
  wp_step. apply wp_subscript; [intros ch _|intros _; by split].
  destruct (_ && _); [wp_steps; split; [done|exact Hb1]|].
  wp_steps. apply wp_load_any; [intros outs; split; [done|exact Hb1]|].
  intros [c0 saved] outs. wp_steps.
  apply display_page_writes; [done|exact Hb1].
Qed.

Lemma next_page_writes book t0 s :
  written_for book t0 (progress (db s)) ->
  (forall b, current_book s = Some b -> b = book) ->
  wp next_page (wrote_only book t0) s.
Proof.
  intros Hw Hb. unfold next_page. wp_steps.
  destruct (_ && _); [|wp_steps; by split].
  wp_steps. apply display_page_writes; [done|exact Hb].
Qed.

Lemma prev_page_writes book t0 s :
  written_for book t0 (progress (db s)) ->
  (forall b, current_book s = Some b -> b = book) ->
  wp prev_page (wrote_only book t0) s.
Proof.
  intros Hw Hb. unfold prev_page. wp_steps.
  destruct (_ && _); [|wp_steps; by split].
  wp_steps. apply display_page_writes; [done|exact Hb].
Qed.

Lemma setCurrentRow_writes book t0 s r :
  written_for book t0 (progress (db s)) ->
  (forall b, current_book s = Some b -> b = book) ->
  wp (chapter_list_setCurrentRow r) (wrote_only book t0) s.
Proof.
  intros Hw Hb. unfold chapter_list_setCurrentRow. wp_steps.
  unfold emit_currentRowChanged.
  destruct (_ =? _); [wp_steps; split; [done|exact Hb]|].
  apply load_chapter_writes; [done|exact Hb].
Qed.

Lemma restore_progress_writes book t0 s :
  written_for book t0 (progress (db s)) ->
  (forall b, current_book s = Some b -> b = book) ->
  wp restore_progress (wrote_only book t0) s.
Proof.
  intros Hw Hb. unfold restore_progress. wp_steps.
  apply wp_load_any; [intros outs; split; [done|exact Hb]|].
  intros [c p] outs. wp_steps.
  eapply wp_mono; [apply setCurrentRow_writes; [done|exact Hb]|].
  intros [[]|e] s1 [Hw1 Hb1]; [|by split]. wp_steps.
  eapply wp_mono; [apply load_chapter_writes; [done|exact Hb1]|].
  intros [[]|e] s2 [Hw2 Hb2]; [|by split]. wp_steps.
  apply display_page_writes; [done|exact Hb2].
Qed.

Lemma load_epub_writes get_text path archive t0 s :
  written_for path t0 (progress (db s)) ->
  wp (load_epub get_text path archive) (wrote_only path t0) s.
Proof.
  intros Hw. destruct archive as [book|].
  - unfold wp. rewrite load_epub_assembles.
    apply restore_progress_writes; [done|]. by intros b [= <-].
  - unfold wp. rewrite load_epub_unreadable. split; [done|]. by intros b [= <-].
Qed.

Lemma another_path (path : string) : String "!" path <> path.
Proof.
  induction path as [|c path IH]; [done|].
  intros [= <- H]. by apply IH.
Qed.

Lemma load_epub_sets_book get_text path archive s :
  current_book (snd (load_epub get_text path archive s))
  = Some (abspath path).
Proof.
  destruct archive as [book|].
  - rewrite load_epub_assembles.
    by rewrite (preserves_restore_progress current_book
                  untouched_current_book).
  - by rewrite load_epub_unreadable.
Qed.

Lemma handle_writes get_text e s avoid :
  exists b,
    written_for b (progress (db s)) (progress (db (snd (handle get_text e s))))
    /\ (forall b', current_book (snd (handle get_text e s)) = Some b' ->
                   b' = b)
    /\ (current_book (snd (handle get_text e s)) = None -> b <> avoid).
Proof.
  assert (forall m : M unit,
            current_book (snd (m s)) = current_book s ->
            (forall b, (forall b', current_book s = Some b' -> b' = b) ->
                       wp m (wrote_only b (progress (db s))) s) ->
            exists b,
              written_for b (progress (db s)) (progress (db (snd (m s))))
              /\ (forall b', current_book (snd (m s)) = Some b' -> b' = b)
              /\ (current_book (snd (m s)) = None -> b <> avoid)) as Hnav.
  { intros m Hsame Hm. rewrite Hsame.
    destruct (current_book s) as [b|] eqn:Eb.
    - exists b. destruct (Hm b) as [Hw _]; [by intros b' [= ->]|].
      split; [done|]. split; [by intros b' [= ->]|done].
    - exists (String "!" avoid).
      destruct (Hm (String "!" avoid)) as [Hw _]; [done|].
      split; [done|]. split; [done|]. intros _. apply another_path. }
  destruct e as [choice archive|row| |]; simpl.
  - unfold open_epub. destruct (truthy_str (Some choice)).
    + exists choice.
      destruct (load_epub_writes get_text choice archive (progress (db s)) s
                  (written_none _ _)) as [Hw Hb].
      split; [done|]. split; [done|].
      by rewrite load_epub_sets_book.
    + apply (Hnav (mret tt)); [done|]. intros b Hb. by split; [constructor|].
  - apply Hnav.
    + by rewrite (preserves_setCurrentRow current_book untouched_current_book).
    + intros b Hb. apply setCurrentRow_writes; [constructor|done].
  - apply Hnav.
    + by rewrite (preserves_prev_page current_book untouched_current_book).
    + intros b Hb. apply prev_page_writes; [constructor|done].
  - apply Hnav.
    + by rewrite (preserves_next_page current_book untouched_current_book).
    + intros b Hb. apply next_page_writes; [constructor|done].
Qed.

(** X2.  Whatever its outcome, an event only writes the record kept under
    the path that is the open book once the event is over: the book that
    was open, for the page buttons and the chapter list, and the path
    [load_epub] has made the open book, for an open.  The stored position
    of every other path is as before. *)
Theorem event_leaves_other_books (get_text : bytes -> text) (e : event)
    (s : reader) (path : string) :
  current_book (snd (handle get_text e s)) <> Some path ->
  select (Some path) (progress (db (snd (handle get_text e s))))
  = select (Some path) (progress (db s)).
Proof.
  intros Hne. destruct (handle_writes get_text e s path) as (b & Hw & Hb & Hn).
  apply (written_for_other b); [done|].
  destruct (current_book (snd (handle get_text e s))) as [b'|] eqn:E.
  - rewrite <- (Hb b' eq_refl). congruence.
  - intros ->. by apply Hn.
Qed.

(** X3.  Whatever the events and their outcomes, the table keeps its key
    constraint and every path that had a record still has one. *)
Theorem events_keep_table (get_text : bytes -> text) (es : list event)
    (s : reader) :
  let t' := progress (db (snd (handle_all get_text es s))) in
  (primary_key (progress (db s)) -> primary_key t') /\
  (forall k, is_Some (select (Some k) (progress (db s))) ->
             is_Some (select (Some k) t')).
Proof.
  revert s. induction es as [|e es IH]; intros s; [done|].
  cbn [handle_all]. cbn zeta.
  destruct (handle_writes get_text e s ""%string) as (b & Hw & _).
  unfold mbind, M_bind.
  destruct (handle get_text e s) as [[[]|err] s1] eqn:E; simpl in Hw.
  - destruct (IH s1) as [Hpk Hkeep]. split.
    + intros H. apply Hpk. by eapply written_for_primary_key.
    + intros k H. apply Hkeep. by eapply written_for_keeps.
  - simpl. split.
    + by eapply written_for_primary_key.
    + intros k. by eapply written_for_keeps.
Qed.

(** ** Turning pages and selecting chapters *)

Lemma display_page_at s book p t :
  available s -> current_book s = Some book -> book <> ""%string ->
  index (pages s) p = Some t ->
  display_page (set_current_page p s) = (Return tt, shown book p t s).
Proof.
  intros Ha Hb Hne Ht. by erewrite display_page_shown.
Qed.

Lemma next_page_run s book t :
  available s -> current_book s = Some book -> book <> ""%string ->
  index (pages s) (current_page s + 1) = Some t ->
  current_page s < len (pages s) - 1 ->
  next_page s = (Return tt, shown book (current_page s + 1) t s).
Proof.
  intros Ha Hb Hne Hi Hp.
  unfold next_page. run. rewrite (index_Some_truthy _ _ _ Hi). simpl.
  destruct (Z.ltb_spec (current_page s) (len (pages s) - 1)); [|lia].
  by apply display_page_at.
Qed.

Lemma prev_page_run s book t :
  available s -> current_book s = Some book -> book <> ""%string ->
  index (pages s) (current_page s - 1) = Some t ->
  0 < current_page s ->
  prev_page s = (Return tt, shown book (current_page s - 1) t s).
Proof.
  intros Ha Hb Hne Hi Hp.
  unfold prev_page. run. rewrite (index_Some_truthy _ _ _ Hi). simpl.
  destruct (Z.ltb_spec 0 (current_page s)); [|lia].
  by apply display_page_at.
Qed.

Lemma index_in_range {A} (l : list A) i :
  0 <= i < len l -> exists x, l !! Z.to_nat i = Some x /\ index l i = Some x.
Proof.
  intros Hi. destruct (lookup_lt_is_Some_2 l (Z.to_nat i)) as [x Hx];
    [unfold len in Hi; lia|].
  exists x. split; [done|]. by rewrite index_lookup.
Qed.

(** X4.  On a page that is not the last, with a book open and the store
    available, [next_page] moves to the following page, displays it with
    its number and the page count, and records the new position. *)
Theorem next_page_advances (s : reader) (book : string) :
  available s -> current_book s = Some book -> book <> ""%string ->
  0 <= current_page s < len (pages s) - 1 ->
  exists t s',
    pages s !! Z.to_nat (current_page s + 1) = Some t /\
    next_page s = (Return tt, s') /\
    current_page s' = current_page s + 1 /\
    text_view s' = PageHtml (replace_newlines t) (current_page s + 2)
                     (len (pages s)) /\
    select (Some book) (progress (db s'))
    = Some (current_chapter s, current_page s + 1) /\
    pages s' = pages s /\ current_chapter s' = current_chapter s.
Proof.
  intros Ha Hb Hne Hp.
  destruct (index_in_range (pages s) (current_page s + 1)) as (t & Ht & Hi);
    [lia|].
  exists t. eexists. split; [done|].
  split; [apply next_page_run; [done..|lia]|]. simpl.
  rewrite select_upsert_eq. repeat split. f_equal. lia.
Qed.

(** X5.  On a page that is not the first, [prev_page] moves to the page
    before, displays it and records the new position. *)
Theorem prev_page_retreats (s : reader) (book : string) :
  available s -> current_book s = Some book -> book <> ""%string ->
  0 < current_page s < len (pages s) ->
  exists t s',
    pages s !! Z.to_nat (current_page s - 1) = Some t /\
    prev_page s = (Return tt, s') /\
    current_page s' = current_page s - 1 /\
    text_view s' = PageHtml (replace_newlines t) (current_page s)
                     (len (pages s)) /\
    select (Some book) (progress (db s'))
    = Some (current_chapter s, current_page s - 1) /\
    pages s' = pages s /\ current_chapter s' = current_chapter s.
Proof.
  intros Ha Hb Hne Hp.
  destruct (index_in_range (pages s) (current_page s - 1)) as (t & Ht & Hi);
    [lia|].
  exists t. eexists. split; [done|].
  split; [apply prev_page_run; [done..|lia]|]. simpl.
  rewrite select_upsert_eq. repeat split. f_equal. lia.
Qed.

(** X6.  Turning a page forth and back ends exactly where displaying the
    starting page again would: same page index, same displayed page, and
    the record of the book back on the starting page. *)
Theorem next_then_prev_page (s : reader) (book : string) :
  available s -> current_book s = Some book -> book <> ""%string ->
  0 <= current_page s < len (pages s) - 1 ->
  (next_page;; prev_page) s = display_page s /\
  fst (display_page s) = Return tt /\
  current_page (snd (display_page s)) = current_page s.
Proof.
  intros Ha Hb Hne Hp.
  destruct (index_in_range (pages s) (current_page s + 1)) as (t & _ & Hi);
    [lia|].
  destruct (index_in_range (pages s) (current_page s)) as (t0 & _ & Hi0);
    [lia|].
  rewrite (display_page_shown s t0 book) by done.
  split; [|done].
  rewrite (bind_returns _ _ _ _ _ (next_page_run s book t Ha Hb Hne Hi ltac:(lia))).
  rewrite (prev_page_run _ book t0); try done.
  - unfold shown. simpl. rewrite upsert_upsert.
    replace (current_page s + 1 - 1) with (current_page s) by lia.
    by destruct s.
  - simpl. by replace (current_page s + 1 - 1) with (current_page s) by lia.
  - simpl. lia.
Qed.

(** X7.  Selecting a text chapter within the list, with a book open and the
    store available, activates it on its first page whatever page was
    held before: its text is paginated afresh, the first page is
    displayed, and the record of the book becomes (i, 0). *)
Theorem select_text_chapter (s : reader) (i : Z) (book : string) (ch : text) :
  suppress_load s = false -> 0 <= i < len (chapters s) ->
  current_book s = Some book -> book <> ""%string -> available s ->
  chapters s !! Z.to_nat i = Some ch ->
  bool_decide (ch = COVER) && truthy_bytes (cover_data s) = false ->
  ch <> [] ->
  exists p0,
    paginate_chapter ch !! 0%nat = Some p0 /\
    load_chapter i s =
      (Return tt,
       shown book 0 p0
         (set_pages (paginate_chapter ch) (set_current_chapter i s))).
Proof.
  intros Hs Hi Hb Hne Ha Hch Hcov Hnil.
  destruct (paginate_chapter_nonempty ch Hnil) as (p0 & Hp0 & Hlen).
  exists p0. split; [done|].
  unfold load_chapter. run. rewrite Hs.
  destruct (Z.ltb_spec i 0); [lia|].
  destruct (Z.leb_spec (len (chapters s)) i); [lia|].
  simpl. rewrite Hb, truthy_str_Some by done.
  rewrite save_progress_available by done.
  unfold subscript. rewrite index_lookup by (simpl; lia). simpl.
  rewrite Hch. run. rewrite Hcov.
  rewrite load_progress_available by done. simpl.
  rewrite select_upsert_eq. simpl. rewrite Z.min_l by lia.
  erewrite display_page_shown; [| |done|done|done].
  2:{ simpl. rewrite index_lookup by lia. exact Hp0. }
  unfold shown. simpl. by rewrite upsert_upsert.
Qed.

(** X8.  Selecting the cover chapter shows the cover image, drops the
    pages, sets the page index to 0 and records (i, 0). *)
Theorem select_cover_chapter (s : reader) (i : Z) (book : string)
    (image : bytes) :
  suppress_load s = false -> 0 <= i < len (chapters s) ->
  current_book s = Some book -> book <> ""%string -> available s ->
  chapters s !! Z.to_nat i = Some COVER ->
  cover_data s = Some image -> image <> [] ->
  exists s',
    load_chapter i s = (Return tt, s') /\
    text_view s' = CoverHtml image /\ state_of s' = CoverDisplayed /\
    pages s' = [] /\ current_chapter s' = i /\ current_page s' = 0 /\
    progress (db s') = upsert book i 0 (progress (db s)) /\
    chapters s' = chapters s.
Proof.
  intros Hs Hi Hb Hne Ha Hch Hcov Hnil.
  eexists. split; [by eapply load_chapter_cover|]. done.
Qed.

(** X9.  When the get inside [load_chapter] fails after its put has
    succeeded, the error leaves the reader half way: the new chapter and
    its pages are in place and its record (i, 0) is written, but the page
    index and the displayed document are those of before. *)
Theorem select_chapter_interrupted (s : reader) (i : Z) (book : string)
    (ch : text) (rest : list bool) :
  suppress_load s = false -> 0 <= i < len (chapters s) ->
  current_book s = Some book -> book <> ""%string ->
  outages (db s) = false :: true :: rest ->
  chapters s !! Z.to_nat i = Some ch ->
  bool_decide (ch = COVER) && truthy_bytes (cover_data s) = false ->
  load_chapter i s =
    (Raise OperationalError,
     set_db (Database (upsert book i 0 (progress (db s))) rest)
       (set_pages (paginate_chapter ch) (set_current_chapter i s))).
Proof.
  intros Hs Hi Hb Hne Ho Hch Hcov.
  unfold load_chapter. run. rewrite Hs.
  destruct (Z.ltb_spec i 0); [lia|].
  destruct (Z.leb_spec (len (chapters s)) i); [lia|].
  simpl. rewrite Hb, truthy_str_Some by done.
  unfold save_progress, sqlite at 1. run. rewrite Ho. simpl.
  unfold subscript. rewrite index_lookup by (simpl; lia). simpl.
  rewrite Hch. run. rewrite Hcov.
  unfold load_progress. by erewrite sqlite_outage.
Qed.

(** ** Leaving and coming back *)

Lemma upsert_recorded path c p t :
  select (Some path) t = Some (c, p) -> upsert path c p t = t.
Proof.
  induction t as [|r t IH]; [done|].
  rewrite select_cons, upsert_cons.
  destruct (String.eqb_spec (book_path r) path) as [<-|Hne].
  - intros [= <- <-]. by destruct r.
  - intros H. by rewrite IH.
Qed.

Lemma load_epub_recorded get_text d path book c p ch t :
  path <> ""%string -> outages d = [] ->
  select (Some path) (progress d) = Some (c, p) ->
  0 <= c < len (assembled get_text book) ->
  assembled get_text book !! Z.to_nat c = Some ch ->
  bool_decide (ch = COVER) && truthy_bytes (resolved_cover book) = false ->
  0 <= p -> paginate_chapter ch !! Z.to_nat p = Some t ->
  exists row,
    load_epub get_text path (Some book) (init d) =
      (Return tt,
       set_text_view
         (PageHtml (replace_newlines t) (p + 1) (len (paginate_chapter ch)))
         (set_current_page p
            (set_pages (paginate_chapter ch)
               (set_current_chapter c
                  (set_chapter_list
                     (ListWidget (assembled_labels get_text book) row)
                     (assembled_reader get_text path book (init d))))))).
Proof.
  intros Hne Ha Hsel Hc Hch Hcov Hp Ht.
  assert (ch <> []) as Hnil.
  { apply (assembled_nonempty get_text book). by eapply list_elem_of_lookup_2. }
  apply lookup_lt_Some in Ht as Hlt.
  assert (Z.min p (len (paginate_chapter ch) - 1) = p) as Hmin
    by (unfold len; lia).
  rewrite load_epub_assembles.
  edestruct (restore_progress_text (assembled_reader get_text path book (init d))
               path c p ch) as (t' & row & Ht' & Hrun); try done.
  { simpl. by rewrite Hsel. }
  rewrite Hmin in Ht', Hrun. rewrite index_lookup in Ht' by (unfold len; lia).
  rewrite Ht in Ht'. injection Ht' as <-.
  rewrite Hrun. exists row. f_equal. simpl.
  rewrite upsert_recorded by done.
  destruct d as [tbl outs]. simpl in *. by subst outs.
Qed.

(** X10.  Opening a book on a fresh reader whose store records a text
    chapter and one of its pages lands on exactly that chapter and page,
    displays it, and leaves the store as it was. *)
Theorem reopen_at_recorded_position (get_text : bytes -> text)
    (d : database) (path : string) (book : epub_book) (c p : Z)
    (ch t : text) :
  path <> ""%string -> outages d = [] ->
  select (Some path) (progress d) = Some (c, p) ->
  0 <= c < len (assembled get_text book) ->
  assembled get_text book !! Z.to_nat c = Some ch ->
  bool_decide (ch = COVER) && truthy_bytes (resolved_cover book) = false ->
  0 <= p -> paginate_chapter ch !! Z.to_nat p = Some t ->
  exists s',
    load_epub get_text path (Some book) (init d) = (Return tt, s') /\
    current_chapter s' = c /\ current_page s' = p /\
    pages s' = paginate_chapter ch /\
    text_view s' = PageHtml (replace_newlines t) (p + 1)
                     (len (paginate_chapter ch)) /\
    db s' = d.
Proof.
  intros Hne Ha Hsel Hc Hch Hcov Hp Ht.
  destruct (load_epub_recorded get_text d path book c p ch t) as [row Hrun];
    try done.
  rewrite Hrun. eexists. split; [done|]. by simpl.
Qed.

(** X11.  A page turned to is the page found again: after [next_page], a
    fresh reader over the same store opened on the same book resumes on
    the same chapter and page, showing the same document, without
    changing the store. *)
Theorem page_turn_survives_reopen (get_text : bytes -> text) (s : reader)
    (path : string) (book : epub_book) (ch : text) :
  path <> ""%string -> available s ->
  current_book s = Some path ->
  chapters s = assembled get_text book ->
  cover_data s = resolved_cover book ->
  0 <= current_chapter s ->
  chapters s !! Z.to_nat (current_chapter s) = Some ch ->
  bool_decide (ch = COVER) && truthy_bytes (cover_data s) = false ->
  pages s = paginate_chapter ch ->
  0 <= current_page s < len (pages s) - 1 ->
  exists s1 s2,
    next_page s = (Return tt, s1) /\
    load_epub get_text path (Some book) (init (db s1)) = (Return tt, s2) /\
    current_chapter s2 = current_chapter s /\
    current_page s2 = current_page s + 1 /\
    pages s2 = pages s /\ text_view s2 = text_view s1 /\ db s2 = db s1.
Proof.
  intros Hne Ha Hb Hchs Hcov Hcc Hch Htext Hpages Hp.
  destruct (index_in_range (pages s) (current_page s + 1)) as (t & Ht & Hi);
    [lia|].
  pose proof (next_page_run s path t Ha Hb Hne Hi ltac:(lia)) as Hnext.
  apply lookup_lt_Some in Hch as Hlt.
  destruct (load_epub_recorded get_text
              (db (shown path (current_page s + 1) t s)) path book
              (current_chapter s) (current_page s + 1) ch t)
    as (row & Hopen); try done.
  - simpl. by rewrite select_upsert_eq.
  - rewrite <- Hchs. unfold len. lia.
  - by rewrite <- Hchs.
  - by rewrite <- Hcov.
  - lia.
  - by rewrite <- Hpages.
  - eexists _, _. split; [exact Hnext|]. split; [exact Hopen|].
    simpl. rewrite Hpages. by repeat split.
Qed.

(** X12.  A book without a cover, opened for the first time on a fresh
    reader, lands on chapter 0, page 0: the first page of its first
    section with text is displayed and (0, 0) is recorded. *)
Theorem first_open_lands_on_first_page (get_text : bytes -> text)
    (d : database) (path : string) (book : epub_book) (ch : text)
    (rest : list text) :
  path <> ""%string -> outages d = [] ->
  select (Some path) (progress d) = None ->
  truthy_bytes (resolved_cover book) = false ->
  surviving get_text book = ch :: rest ->
  exists p0 s',
    paginate_chapter ch !! 0%nat = Some p0 /\
    load_epub get_text path (Some book) (init d) = (Return tt, s') /\
    current_chapter s' = 0 /\ current_page s' = 0 /\
    pages s' = paginate_chapter ch /\
    text_view s' = PageHtml (replace_newlines p0) 1
                     (len (paginate_chapter ch)) /\
    select (Some path) (progress (db s')) = Some (0, 0).
Proof.
  intros Hne Ha Hsel Hcov Hsur.
  assert (assembled get_text book = ch :: rest) as Hasm.
  { unfold assembled. by rewrite Hcov, Hsur. }
  assert (ch <> []) as Hnil.
  { apply (surviving_nonempty get_text book). rewrite Hsur. left. }
  destruct (paginate_chapter_nonempty ch Hnil) as (p0 & Hp0 & Hlen).
  rewrite load_epub_assembles.
  edestruct (restore_progress_text (assembled_reader get_text path book (init d))
               path 0 0 ch) as (t' & row & Ht' & Hrun); try done.
  { simpl. by rewrite Hsel. }
  { simpl. rewrite Hasm. unfold len. simpl length. lia. }
  { simpl. by rewrite Hasm. }
  { simpl. rewrite Hcov. apply andb_false_r. }
  rewrite Z.min_l in Ht', Hrun by lia.
  rewrite index_lookup in Ht' by lia. change (Z.to_nat 0) with 0%nat in Ht'.
  rewrite Hp0 in Ht'. injection Ht' as <-.
  rewrite Hrun. exists p0. eexists. split; [done|]. split; [done|]. simpl.
  by rewrite select_upsert_eq.
Qed.

Lemma chapter_labels_length n k : length (chapter_labels n k) = n.
Proof. revert k. induction n as [|n IH]; intros k; simpl; [done|]. by rewrite IH. Qed.

Lemma chapter_labels_lookup n k j :
  (j < n)%nat ->
  chapter_labels n k !! j = Some (chapter_label (k + Z.of_nat j)).
Proof.
  revert k j. induction n as [|n IH]; intros k j Hj; [lia|].
  destruct j as [|j]; simpl.
  - by rewrite Z.add_0_r.
  - rewrite IH by lia. do 2 f_equal. lia.
Qed.

(** X13.  After a book has been read, whatever happens while progress is
    restored, the chapter picker has one row per chapter: "Cover Page"
    for the cover when there is one, and "Chapter k" for the k-th section
    with text, counted from 1. *)
Theorem picker_rows_match_chapters (get_text : bytes -> text) (s : reader)
    (path : string) (book : epub_book) :
  let s' := snd (load_epub get_text path (Some book) s) in
  let rows := items (chapter_list s') in
  let first := Z.to_nat (first_text_index book) in
  length rows = length (chapters s') /\
  (first = 1%nat -> rows !! 0%nat = Some "Cover Page"%string) /\
  (forall k, (k < length (surviving get_text book))%nat ->
     rows !! (first + k)%nat = Some (chapter_label (Z.of_nat k + 1)) /\
     chapters s' !! (first + k)%nat = surviving get_text book !! k).
Proof.
  intros s' rows first.
  assert (chapters s' = assembled get_text book) as Hch.
  { unfold s'. rewrite load_epub_assembles.
    by rewrite (preserves_restore_progress chapters untouched_chapters). }
  assert (rows = assembled_labels get_text book) as Hrows.
  { unfold rows, s'. rewrite load_epub_assembles.
    by rewrite (preserves_restore_progress (fun s => items (chapter_list s))
                  untouched_items). }
  rewrite Hch, Hrows. unfold assembled, assembled_labels, first, first_text_index.
  destruct (truthy_bytes (resolved_cover book)); simpl.
  - split; [by rewrite chapter_labels_length|]. split; [done|].
    intros k Hk. rewrite chapter_labels_lookup by done.
    split; [|done]. do 2 f_equal. lia.
  - split; [by rewrite chapter_labels_length|]. split; [done|].
    intros k Hk. rewrite chapter_labels_lookup by done.
    split; [|done]. do 2 f_equal. lia.
Qed.

(** X14.  The cover kept by [load_epub], whatever happens afterwards: the
    first item typed as cover when it has content; failing that, the
    first image whose lower-cased name contains "cover"; none when there
    is neither.  Without a cover with content no cover chapter is
    inserted and the sections with text start at index 0. *)
Theorem cover_resolution (get_text : bytes -> text) (s : reader)
    (path : string) (book : epub_book) :
  let s' := snd (load_epub get_text path (Some book) s) in
  (forall c, explicit_cover book = Some c -> c <> [] ->
     cover_data s' = Some c /\ chapters s' !! 0%nat = Some COVER) /\
  (forall c, explicit_cover book = None \/ explicit_cover book = Some [] ->
     named_cover book = Some c -> cover_data s' = Some c) /\
  (explicit_cover book = None -> named_cover book = None ->
     cover_data s' = None) /\
  (truthy_bytes (cover_data s') = false ->
     chapters s' = surviving get_text book).
Proof.
  intros s'.
  assert (chapters s' = assembled get_text book) as Hch.
  { unfold s'. rewrite load_epub_assembles.
    by rewrite (preserves_restore_progress chapters untouched_chapters). }
  assert (cover_data s' = resolved_cover book) as Hcov.
  { unfold s'. rewrite load_epub_assembles.
    by rewrite (preserves_restore_progress cover_data untouched_cover_data). }
  rewrite Hch, Hcov. unfold assembled, resolved_cover.
  split; [|split; [|split]].
  - intros c -> Hc. destruct c; [done|]. by simpl.
  - intros c [->| ->] ->; by simpl.
  - by intros -> ->.
  - by intros ->.
Qed.

(** ** What the page buttons and the chapter list leave alone *)

Lemma display_page_turned s : wp display_page (turned 0 s) s.
Proof.
  unfold display_page, turned. wp_steps.
  destruct (truthy_list (pages s)); [|wp_steps; repeat split; lia].
  wp_step. apply wp_subscript; [intros y _|intros _; repeat split; lia].
  wp_steps.
  destruct (current_book s) as [b|]; [|wp_steps; simpl; repeat split; lia].
  destruct (truthy_str (Some b)); [|wp_steps; simpl; repeat split; lia].
  unfold save_progress. apply wp_sqlite; intros rest _; simpl; repeat split; lia.
Qed.

Lemma next_page_turned s : wp next_page (turned 1 s) s.
Proof.
  unfold next_page. wp_steps.
  destruct (_ && _); [|wp_steps; unfold turned; repeat split; lia].
  wp_steps. eapply wp_mono; [apply display_page_turned|].
  unfold turned. simpl. intros o s' (-> & -> & -> & -> & H).
  repeat split; lia.
Qed.

Lemma prev_page_turned s : wp prev_page (turned 1 s) s.
Proof.
  unfold prev_page. wp_steps.
  destruct (_ && _); [|wp_steps; unfold turned; repeat split; lia].
  wp_steps. eapply wp_mono; [apply display_page_turned|].
  unfold turned. simpl. intros o s' (-> & -> & -> & -> & H).
  repeat split; lia.
Qed.

(** X15.  Whatever their outcome, the page buttons and the chapter list
    never change the chapters, the cover, the open book or the labels of
    the picker; the page buttons moreover keep the pages, the current
    chapter and the picker as they are and move the page index by at most
    one. *)
Theorem navigation_leaves_book (get_text : bytes -> text) (e : event)
    (s : reader) :
  let s' := snd (handle get_text e s) in
  (forall choice archive, e <> OpenEpub choice archive) ->
  (chapters s' = chapters s /\ cover_data s' = cover_data s /\
   current_book s' = current_book s /\
   items (chapter_list s') = items (chapter_list s)) /\
  (e = NextPage \/ e = PrevPage ->
   pages s' = pages s /\ current_chapter s' = current_chapter s /\
   chapter_list s' = chapter_list s /\
   Z.abs (current_page s' - current_page s) <= 1).
Proof.
  intros s' He. unfold s'. destruct e as [choice archive|row| |]; simpl.
  - by destruct (He choice archive).
  - split; [|by intros [|]].
    rewrite (preserves_setCurrentRow chapters untouched_chapters) by done.
    rewrite (preserves_setCurrentRow cover_data untouched_cover_data) by done.
    rewrite (preserves_setCurrentRow current_book untouched_current_book) by done.
    by rewrite (preserves_setCurrentRow (fun s => items (chapter_list s))
                  untouched_items).
  - split.
    + rewrite (preserves_prev_page chapters untouched_chapters).
      rewrite (preserves_prev_page cover_data untouched_cover_data).
      rewrite (preserves_prev_page current_book untouched_current_book).
      by rewrite (preserves_prev_page (fun s => items (chapter_list s))
                    untouched_items).
    + intros _. destruct (prev_page_turned s) as (? & ? & ? & _ & ?). done.
  - split.
    + rewrite (preserves_next_page chapters untouched_chapters).
      rewrite (preserves_next_page cover_data untouched_cover_data).
      rewrite (preserves_next_page current_book untouched_current_book).
      by rewrite (preserves_next_page (fun s => items (chapter_list s))
                    untouched_items).
    + intros _. destruct (next_page_turned s) as (? & ? & ? & _ & ?). done.
Qed.

(** X16.  The open book is never the empty path: the dialog path is only
    handed to [load_epub] when it is not empty, and nothing else sets
    [current_book]. *)
Theorem open_book_never_blank (get_text : bytes -> text) (es : list event)
    (s : reader) :
  current_book s <> Some ""%string ->
  current_book (snd (handle_all get_text es s)) <> Some ""%string.
Proof.
  revert s. induction es as [|e es IH]; intros s Hs; [done|].
  cbn [handle_all]. unfold mbind, M_bind.
  assert (current_book (snd (handle get_text e s)) <> Some ""%string) as H1.
  { destruct e as [choice archive|row| |]; simpl.
    - unfold open_epub. destruct choice as [|c choice]; [done|]. simpl.
      destruct (load_epub_writes get_text (String c choice) archive
                  (progress (db s)) s (written_none _ _)) as [_ Hb].
      intros Hbl. by specialize (Hb _ Hbl).
    - by rewrite (preserves_setCurrentRow current_book untouched_current_book).
    - by rewrite (preserves_prev_page current_book untouched_current_book).
    - by rewrite (preserves_next_page current_book untouched_current_book). }
  destruct (handle get_text e s) as [[[]|err] s1]; simpl in *; [by apply IH|done].
Qed.

(** ** Page text, short chapters, absent records *)

Lemma replace_newlines_cons c t :
  replace_newlines (c :: t) =
  (if Ascii.eqb c "010"%char then list_ascii_of_string "<br>" else [c])
    ++ replace_newlines t.
Proof. done. Qed.

(** X17.  The text handed to the viewer holds no newline; a page without
    newlines is displayed as it is, and replacing distributes over
    concatenation. *)
Theorem replace_newlines_clean (t u : text) :
  ("010"%char ∉ replace_newlines t) /\
  ("010"%char ∉ t -> replace_newlines t = t) /\
  replace_newlines (t ++ u) = replace_newlines t ++ replace_newlines u /\
  (length t <= length (replace_newlines t))%nat.
Proof.
  split; [|split; [|split]].
  - induction t as [|c t IH]; [apply not_elem_of_nil|].
    rewrite replace_newlines_cons.
    destruct (Ascii.eqb_spec c "010"%char) as [->|Hc].
    + intros [H|H]%elem_of_app; [|done].
      simpl in H. repeat (apply elem_of_cons in H as [H|H]; [done|]).
      by apply elem_of_nil in H.
    + intros [H|H]%elem_of_app; [|done].
      apply list_elem_of_singleton in H. congruence.
  - induction t as [|c t IH]; [done|].
    intros Hnot. rewrite replace_newlines_cons.
    destruct (Ascii.eqb_spec c "010"%char) as [->|Hc].
    + exfalso. apply Hnot. left.
    + simpl. f_equal. apply IH. intros H. apply Hnot. by right.
  - unfold replace_newlines. apply flat_map_app.
  - induction t as [|c t IH]; [done|].
    rewrite replace_newlines_cons, length_app. simpl length at 1.
    destruct (Ascii.eqb c "010"%char); simpl; lia.
Qed.

(** X18.  A chapter of at most 2000 characters is a single page holding the
    whole text. *)
Theorem short_chapter_single_page (t : text) :
  t <> [] -> len t <= page_size -> paginate_chapter t = [t].
Proof.
  intros Hne Hlen.
  pose proof (paginate_chapter_len t) as Hn.
  assert ((len t + page_size - 1) / page_size = 1) as H1.
  { unfold page_size in *. destruct t; [done|].
    unfold len in *. simpl length in *.
    symmetry. apply Z.div_unique with (r := Z.of_nat (S (length t)) - 1); lia. }
  rewrite H1 in Hn. pose proof (paginate_chapter_concat t) as Hc.
  destruct (paginate_chapter t) as [|p0 [|p1 ps]];
    unfold len in Hn; simpl in Hn; try lia.
  simpl in Hc. rewrite app_nil_r in Hc. by rewrite Hc.
Qed.

(** X19.  A get for a path without a record, or with no book set, answers
    (0, 0) and changes nothing. *)
Theorem load_progress_absent (s : reader) (path : option string) :
  available s ->
  (forall k, path = Some k -> k ∉ book_path <$> progress (db s)) ->
  load_progress path s = (Return (0, 0), s).
Proof.
  intros Ha Habs. rewrite load_progress_available by done.
  do 2 f_equal. destruct path as [k|]; [|done].
  specialize (Habs k eq_refl).
  induction (progress (db s)) as [|r t IH]; [done|].
  rewrite select_cons. rewrite fmap_cons in Habs.
  destruct (String.eqb_spec (book_path r) k) as [<-|Hne].
  - exfalso. apply Habs. left.
  - apply IH. intros H. apply Habs. by right.
Qed.

(** ** Fonts *)

Lemma handle_font_ok e f : fonts_ok f -> fonts_ok (handle_font e f).
Proof.
  intros (Hsize & Heven & Hview). destruct e as [| |family]; simpl.
  - unfold increase_font, fonts_ok. simpl. split; [lia|]. split; [|done].
    by rewrite Z.even_add, Heven.
  - unfold decrease_font. destruct (Z.ltb_spec 6 (font_size f)); [|done].
    unfold fonts_ok. simpl. split; [|split; [|done]].
    + destruct (Z.eq_dec (font_size f) 7) as [E|E]; [by rewrite E in Heven|lia].
    + by rewrite Z.even_sub, Heven.
  - unfold choose_family, change_font_family.
    destruct (String.eqb_spec (font_selector f) family) as [<-|Hne].
    + unfold fonts_ok. simpl. by destruct f.
    + by unfold fonts_ok.
Qed.

(** X20.  However the font controls are used, the font size stays an even
    number not below 6, and the viewer is set in the family shown by the
    selector at the current size. *)
Theorem fonts_stay_ok (es : list font_event) :
  fonts_ok (foldl (fun f e => handle_font e f) init_fonts es).
Proof.
  assert (fonts_ok init_fonts) as H0 by done.
  revert H0. generalize init_fonts. induction es as [|e es IH]; intros f Hf.
  - done.
  - simpl. apply IH. by apply handle_font_ok.
Qed.

(** X21.  A- undoes A+ at every size the controls can reach; A+ undoes A-
    above size 6, where A- does nothing. *)
Theorem font_buttons_inverse (f : fonts) :
  fonts_ok f ->
  decrease_font (increase_font f) = f /\
  (6 < font_size f -> increase_font (decrease_font f) = f) /\
  (font_size f = 6 -> decrease_font f = f /\
                      increase_font (decrease_font f) <> f).
Proof.
  intros (Hsize & Heven & Hview). destruct f as [size sel view].
  simpl in *. subst view. split; [|split].
  - unfold decrease_font, increase_font. simpl.
    destruct (Z.ltb_spec 6 (size + 2)); [|lia].
    f_equal; [lia|f_equal; lia].
  - intros Hlt. unfold decrease_font, increase_font. simpl.
    destruct (Z.ltb_spec 6 size); [|lia]. simpl.
    f_equal; [lia|f_equal; lia].
  - intros ->. split; [done|]. unfold decrease_font, increase_font. simpl.
    intros [= ].
Qed.

Lemma paginate_chapter_page (t : text) k :
  paginate_chapter t !! k =
  if decide (Z.of_nat k * page_size < len t)
  then Some (take 2000 (drop (2000 * k) t)) else None.
Proof.
  destruct (paginate_chapter t !! k) as [p|] eqn:E.
  - apply paginate_chapter_lookup in E as [Hlt ->].
    rewrite decide_True by done.
    rewrite slice_forward by (unfold page_size; lia).
    unfold page_size. do 3 f_equal; lia.
  - apply lookup_ge_None in E.
    pose proof (paginate_chapter_len t) as Hn. unfold len in Hn.
    rewrite decide_False; [done|]. unfold page_size in *.
    assert ((len t + 2000 - 1) / 2000 <= Z.of_nat k) as Hle.
    { unfold len. rewrite <- Hn. apply Nat2Z.inj_le. exact E. }
    intros Hlt. apply Z.lt_nge in Hlt. apply Hlt.
    pose proof (Z.div_mod (len t + 2000 - 1) 2000 ltac:(lia)) as Hd.
    pose proof (Z.mod_pos_bound (len t + 2000 - 1) 2000 ltac:(lia)) as Hm.
    lia.
Qed.

(** X22.  Page k of a chapter is its characters from 2000k up to 2000k+2000,
    and paginating a text is taking its first 2000 characters and
    paginating what is left. *)
Theorem paginate_chapter_unfold (t : text) :
  (forall k p, paginate_chapter t !! k = Some p ->
     p = take 2000 (drop (2000 * k) t)) /\
  (t <> [] ->
   paginate_chapter t = take 2000 t :: paginate_chapter (drop 2000 t)).
Proof.
  split.
  - intros k p. rewrite paginate_chapter_page. case_decide; [|done].
    by intros [= <-].
  - intros Hne. apply list_eq. intros [|k].
    + rewrite paginate_chapter_page. simpl.
      rewrite decide_True; [done|]. destruct t; [done|].
      unfold len. simpl length. lia.
    + simpl. rewrite !paginate_chapter_page.
      assert (len (drop 2000 t) = Z.max 0 (len t - 2000)) as Hl.
      { unfold len. rewrite length_drop. lia. }
      unfold page_size in *.
      destruct (decide (Z.of_nat (S k) * 2000 < len t));
        destruct (decide (Z.of_nat k * 2000 < len (drop 2000 t))); try lia.
      * rewrite drop_drop. do 3 f_equal. lia.
      * done.
Qed.

(** ** The further properties on sample inputs *)

Lemma events_raise_no_index_error_witness :
  let r := handle_all plain_text
             [OpenEpub "/long.epub" (Some long_book); NextPage; NextPage;
              PrevPage; SelectRow 0; OpenEpub "/gone.epub" None]
             (init (Database [] [])) in
  (fst r = Return tt \/ fst r = Raise EpubException) /\
  available (snd r) /\ consistent (snd r).
Proof.
  apply events_raise_no_index_error; [reflexivity|].
  split; [intros H; discriminate H|constructor].
Defined.

Lemma event_leaves_other_books_witness :
  select (Some "/long.epub"%string)
    (progress (db (snd (handle plain_text
                          (OpenEpub "/book.epub" (Some covered_book))
                          long_session))))
  = select (Some "/long.epub"%string) (progress (db long_session)).
Proof.
  apply event_leaves_other_books. vm_compute. intros H. discriminate H.
Defined.

Lemma events_keep_table_witness :
  primary_key
    (progress (db (snd (handle_all plain_text [NextPage; PrevPage]
                          long_session)))).
Proof.
  apply (proj1 (events_keep_table plain_text [NextPage; PrevPage]
                  long_session)).
  vm_compute. repeat constructor; intros H; inversion H.
  inversion H2.
Defined.

Lemma long_session_facts :
  available long_session /\
  current_book long_session = Some "/long.epub"%string /\
  current_page long_session = 0 /\ len (pages long_session) = 2.
Proof. vm_compute. done. Qed.

Lemma next_page_advances_witness :
  exists s', next_page long_session = (Return tt, s') /\ current_page s' = 1.
Proof.
  destruct long_session_facts as (Ha & Hb & Hp & Hl).
  assert ("/long.epub"%string <> ""%string) as Hne by done.
  assert (0 <= current_page long_session < len (pages long_session) - 1)
    as Hr by (rewrite Hp, Hl; lia).
  destruct (next_page_advances long_session "/long.epub" Ha Hb Hne Hr)
    as (t & s' & _ & Hrun & Hcp & _).
  exists s'. split; [exact Hrun|]. rewrite Hcp, Hp. reflexivity.
Defined.

Lemma long_session_turned_facts :
  available long_session_turned /\
  current_book long_session_turned = Some "/long.epub"%string /\
  current_page long_session_turned = 1 /\
  len (pages long_session_turned) = 2.
Proof. vm_compute. done. Qed.

Lemma prev_page_retreats_witness :
  exists s',
    prev_page long_session_turned = (Return tt, s') /\ current_page s' = 0.
Proof.
  destruct long_session_turned_facts as (Ha & Hb & Hp & Hl).
  assert ("/long.epub"%string <> ""%string) as Hne by done.
  assert (0 < current_page long_session_turned
          < len (pages long_session_turned)) as Hr by (rewrite Hp, Hl; lia).
  destruct (prev_page_retreats long_session_turned "/long.epub" Ha Hb Hne Hr)
    as (t & s' & _ & Hrun & Hcp & _).
  exists s'. split; [exact Hrun|]. rewrite Hcp, Hp. reflexivity.
Defined.

Lemma next_then_prev_page_witness :
  (next_page;; prev_page) long_session = display_page long_session.
Proof.
  destruct long_session_facts as (Ha & Hb & Hp & Hl).
  assert ("/long.epub"%string <> ""%string) as Hne by done.
  assert (0 <= current_page long_session < len (pages long_session) - 1)
    as Hr by (rewrite Hp, Hl; lia).
  exact (proj1 (next_then_prev_page long_session "/long.epub" Ha Hb Hne Hr)).
Defined.

Lemma reading_session_facts :
  suppress_load reading_session = false /\
  available reading_session /\
  current_book reading_session = Some "/book.epub"%string /\
  len (chapters reading_session) = 3 /\
  chapters reading_session !! 0%nat = Some COVER /\
  chapters reading_session !! 2%nat = Some (list_ascii_of_string "Two") /\
  cover_data reading_session = Some [xff; xd8].
Proof. vm_compute. done. Qed.

Lemma select_text_chapter_witness :
  exists p0,
    load_chapter 2 reading_session =
      (Return tt,
       shown "/book.epub" 0 p0
         (set_pages (paginate_chapter (list_ascii_of_string "Two"))
            (set_current_chapter 2 reading_session))).
Proof.
  destruct reading_session_facts as (Hs & Ha & Hb & Hl & _ & H2 & Hc).
  assert ("/book.epub"%string <> ""%string) as Hne by done.
  assert (0 <= 2 < len (chapters reading_session)) as Hi by (rewrite Hl; lia).
  assert (list_ascii_of_string "Two" <> []) as Hnil by done.
  destruct (select_text_chapter reading_session 2 "/book.epub"
              (list_ascii_of_string "Two") Hs Hi Hb Hne Ha H2 eq_refl Hnil)
    as (p0 & _ & Hrun).
  exists p0. exact Hrun.
Defined.

Lemma select_cover_chapter_witness :
  exists s',
    load_chapter 0 reading_session = (Return tt, s') /\
    state_of s' = CoverDisplayed /\ current_page s' = 0.
Proof.
  destruct reading_session_facts as (Hs & Ha & Hb & Hl & H0 & _ & Hc).
  assert ("/book.epub"%string <> ""%string) as Hne by done.
  assert (0 <= 0 < len (chapters reading_session)) as Hi by (rewrite Hl; lia).
  assert ([xff; xd8] <> @nil byte) as Hnil by done.
  destruct (select_cover_chapter reading_session 0 "/book.epub" [xff; xd8]
              Hs Hi Hb Hne Ha H0 Hc Hnil)
    as (s' & Hrun & _ & Hst & _ & _ & Hp & _).
  exists s'. split; [exact Hrun|]. split; [exact Hst|exact Hp].
Defined.

Lemma select_chapter_interrupted_witness :
  fst (load_chapter 2 interrupted_session) = Raise OperationalError /\
  pages (snd (load_chapter 2 interrupted_session))
  = paginate_chapter (list_ascii_of_string "Two").
Proof.
  destruct reading_session_facts as (Hs & Ha & Hb & Hl & _ & H2 & Hc).
  assert ("/book.epub"%string <> ""%string) as Hne by done.
  assert (0 <= 2 < len (chapters interrupted_session)) as Hi
    by (change (chapters interrupted_session) with (chapters reading_session);
        rewrite Hl; lia).
  rewrite (select_chapter_interrupted interrupted_session 2 "/book.epub"
             (list_ascii_of_string "Two") [] Hs Hi Hb Hne eq_refl H2 eq_refl).
  split; reflexivity.
Defined.

Lemma reopen_at_recorded_position_witness :
  exists s',
    load_epub plain_text "/book.epub" (Some covered_book)
      (init (Database [Row "/book.epub" 2 0] [])) = (Return tt, s') /\
    current_chapter s' = 2 /\ current_page s' = 0 /\
    db s' = Database [Row "/book.epub" 2 0] [].
Proof.
  assert ("/book.epub"%string <> ""%string) as Hne by done.
  assert (0 <= 2 < len (assembled plain_text covered_book)) as Hc
    by (vm_compute; split; congruence).
  destruct (reopen_at_recorded_position plain_text
              (Database [Row "/book.epub" 2 0] []) "/book.epub" covered_book
              2 0 (list_ascii_of_string "Two") (list_ascii_of_string "Two")
              Hne eq_refl eq_refl Hc eq_refl eq_refl ltac:(lia) eq_refl)
    as (s' & Hrun & Hch & Hp & _ & _ & Hdb).
  exists s'. repeat split; assumption.
Defined.

Lemma page_turn_survives_reopen_witness :
  exists s1 s2,
    next_page long_session = (Return tt, s1) /\
    load_epub plain_text "/long.epub" (Some long_book) (init (db s1))
    = (Return tt, s2) /\
    current_page s2 = 1 /\ text_view s2 = text_view s1.
Proof.
  destruct long_session_facts as (Ha & Hb & Hp & Hl).
  assert ("/long.epub"%string <> ""%string) as Hne by done.
  assert (chapters long_session = assembled plain_text long_book) as Hch
    by (vm_compute; reflexivity).
  assert (cover_data long_session = resolved_cover long_book) as Hcov
    by (vm_compute; reflexivity).
  assert (0 <= current_chapter long_session) as Hcc
    by (vm_compute; congruence).
  assert (chapters long_session !! Z.to_nat (current_chapter long_session)
          = Some (repeat "a"%char 2001)) as Hat by (vm_compute; reflexivity).
  assert (bool_decide (repeat "a"%char 2001 = COVER)
          && truthy_bytes (cover_data long_session) = false) as Htext
    by (vm_compute; reflexivity).
  assert (pages long_session = paginate_chapter (repeat "a"%char 2001))
    as Hpages by (vm_compute; reflexivity).
  assert (0 <= current_page long_session < len (pages long_session) - 1)
    as Hr by (rewrite Hp, Hl; lia).
  destruct (page_turn_survives_reopen plain_text long_session "/long.epub"
              long_book (repeat "a"%char 2001)
              Hne Ha Hb Hch Hcov Hcc Hat Htext Hpages Hr)
    as (s1 & s2 & Hnext & Hopen & _ & Hp2 & _ & Hview & _).
  exists s1, s2. split; [exact Hnext|]. split; [exact Hopen|].
  split; [|exact Hview]. rewrite Hp2, Hp. reflexivity.
Defined.

Lemma first_open_lands_on_first_page_witness :
  exists s',
    load_epub plain_text "/long.epub" (Some long_book) (init (Database [] []))
    = (Return tt, s') /\
    current_chapter s' = 0 /\ current_page s' = 0 /\
    select (Some "/long.epub"%string) (progress (db s')) = Some (0, 0).
Proof.
  assert ("/long.epub"%string <> ""%string) as Hne by done.
  assert (surviving plain_text long_book = [repeat "a"%char 2001]) as Hsur
    by (vm_compute; reflexivity).
  destruct (first_open_lands_on_first_page plain_text (Database [] [])
              "/long.epub" long_book (repeat "a"%char 2001) []
              Hne eq_refl eq_refl eq_refl Hsur)
    as (p0 & s' & _ & Hrun & Hc & Hp & _ & _ & Hsel).
  exists s'. repeat split; assumption.
Defined.

Lemma picker_rows_match_chapters_witness :
  items (chapter_list
           (snd (load_epub plain_text "/book.epub" (Some covered_book)
                   (init (Database [] [])))))
    !! 2%nat
  = Some (chapter_label 2).
Proof.
  assert (1 < length (surviving plain_text covered_book))%nat as Hk
    by (vm_compute; lia).
  exact (proj1 (proj2 (proj2 (picker_rows_match_chapters plain_text
                                (init (Database [] [])) "/book.epub"
                                covered_book)) 1%nat Hk)).
Defined.

Lemma cover_resolution_witness :
  cover_data (snd (load_epub plain_text "/book.epub" (Some covered_book)
                     (init (Database [] []))))
  = Some [xff; xd8].
Proof.
  assert ([xff; xd8] <> @nil byte) as Hnil by done.
  exact (proj1 (proj1 (cover_resolution plain_text (init (Database [] []))
                         "/book.epub" covered_book) [xff; xd8] eq_refl Hnil)).
Defined.

Lemma navigation_leaves_book_witness :
  pages (snd (handle plain_text NextPage long_session)) = pages long_session /\
  chapters (snd (handle plain_text NextPage long_session))
  = chapters long_session.
Proof.
  assert (forall choice archive, NextPage <> OpenEpub choice archive) as He
    by (intros choice archive H; discriminate H).
  destruct (navigation_leaves_book plain_text NextPage long_session He)
    as [(Hch & _) Hturn].
  destruct (Hturn (or_introl eq_refl)) as (Hpg & _).
  split; [exact Hpg|exact Hch].
Defined.

Lemma open_book_never_blank_witness :
  current_book
    (snd (handle_all plain_text
            [OpenEpub "" (Some long_book); NextPage;
             OpenEpub "/long.epub" (Some long_book)]
            (init (Database [] []))))
  <> Some ""%string.
Proof.
  apply open_book_never_blank. simpl. intros H. discriminate H.
Defined.

Lemma replace_newlines_clean_witness :
  "010"%char ∉ replace_newlines ["a"; "010"; "b"]%char.
Proof.
  exact (proj1 (replace_newlines_clean ["a"; "010"; "b"]%char [])).
Defined.

Lemma short_chapter_single_page_witness :
  paginate_chapter (list_ascii_of_string "One") = [list_ascii_of_string "One"].
Proof.
  apply short_chapter_single_page; [done|].
  vm_compute. congruence.
Defined.

Lemma load_progress_absent_witness :
  load_progress (Some "/book.epub"%string)
    (init (Database [Row "/other.epub" 4 1] []))
  = (Return (0, 0), init (Database [Row "/other.epub" 4 1] [])).
Proof.
  apply load_progress_absent; [reflexivity|].
  intros k [= <-]. simpl.
  intros [H|H]%elem_of_cons; [done|by apply elem_of_nil in H].
Defined.

Lemma fonts_stay_ok_witness :
  fonts_ok (foldl (fun f e => handle_font e f) init_fonts
              [Smaller; Smaller; Smaller; Smaller; Smaller; Family "Arial";
               Bigger]).
Proof. apply fonts_stay_ok. Defined.

Lemma font_buttons_inverse_witness :
  decrease_font (increase_font init_fonts) = init_fonts.
Proof.
  assert (fonts_ok init_fonts) as Hok
    by (split; [vm_compute; congruence | split; reflexivity]).
  exact (proj1 (font_buttons_inverse init_fonts Hok)).
Defined.

Lemma paginate_chapter_unfold_witness :
  paginate_chapter (repeat "a"%char 2001)
  = take 2000 (repeat "a"%char 2001)
      :: paginate_chapter (drop 2000 (repeat "a"%char 2001)).
Proof.
  apply (proj2 (paginate_chapter_unfold (repeat "a"%char 2001))).
  vm_compute. congruence.
Defined.
